(** * The Lonah Maiko Foundation: js/main.js

    A shallow embedding of the navigation controller ([navigation]), of the
    helpers it uses ([utils], [CONFIG]) and of [lazyLoad.loadImage], over a
    small model of the browser: a store of elements, the document order, the
    timer queue of the event loop and the registry of event listeners.

    JavaScript statements become computations in a state-and-exception monad
    [M]: a computation receives the world, returns the world it leaves behind
    and either a value or [Throw] (a TypeError raised by dereferencing null
    or undefined).  What was written before the exception stays written. *)

From Stdlib Require Import ZArith List Bool Ascii String Lia.
From stdpp Require Import base option list strings gmap.

(** ** Elements *)

(** Elements are identified by a number; two handles are the same element
    exactly when the numbers agree, so a page on which one element plays two
    roles (say, the menu container is the body) is a world where two handles
    hold the same number. *)
Definition node := nat.

Record Element := mkElement {
  parentNode : option node;
  classList : list string;
  attributes : gmap string string;
  focusable : bool   (* the browser lets it take the focus: a button, a
                        link, an element with a tabindex, and rendered *)
}.

(** An element the store does not mention: detached, no class, no
    attribute, not focusable. *)
Definition blank : Element := mkElement None [] ∅ false.

(** DOMTokenList.add and DOMTokenList.remove on the ordered token set. *)
Definition token_add (c : string) (cs : list string) : list string :=
  if bool_decide (c ∈ cs) then cs else cs ++ [c].

Definition token_remove (c : string) (cs : list string) : list string :=
  List.filter (λ x, negb (bool_decide (x = c))) cs.

Definition el_add_class (c : string) (e : Element) : Element :=
  mkElement (parentNode e) (token_add c (classList e)) (attributes e) (focusable e).

Definition el_remove_class (c : string) (e : Element) : Element :=
  mkElement (parentNode e) (token_remove c (classList e)) (attributes e) (focusable e).

Definition el_set_attr (k v : string) (e : Element) : Element :=
  mkElement (parentNode e) (classList e) (<[k := v]> (attributes e)) (focusable e).

Definition el_remove_attr (k : string) (e : Element) : Element :=
  mkElement (parentNode e) (classList e) (delete k (attributes e)) (focusable e).

Definition el_has_class (c : string) (e : Element) : bool :=
  bool_decide (c ∈ classList e).

(** ** Timers, events and listeners *)

(** The two closures the script hands to setTimeout. *)
Inductive Callback :=
  | FocusLink (l : node)   (* () => firstLink.focus(), firstLink captured *)
  | Later.                 (* the closure later of utils.debounce *)

Record Timer := mkTimer { tid : nat; due : Z; callback : Callback }.

Inductive EventType := Click | Keydown | Resize.

Inductive Target := OnNode (n : node) | OnDocument | OnWindow.

(** The closures the navigation module registers as listeners. *)
Inductive Handler :=
  | ToggleClick
  | LinkClick
  | DocumentClick
  | DocumentKeydown
  | WindowResize
  | LinkKeydown (links : list node) (index : nat).

Record Listener := mkListener {
  l_target : Target;
  l_type : EventType;
  l_handler : Handler
}.

Record Event := mkEvent {
  ev_type : EventType;
  ev_target : Target;
  ev_key : string
}.

(** What the browser records of a run: every call of focus() and every
    timer callback it fires. *)
Inductive Obs :=
  | FocusCall (n : node)
  | Fired (t : Timer).

#[global] Instance Callback_eq_dec : EqDecision Callback.
Proof. solve_decision. Defined.
#[global] Instance Timer_eq_dec : EqDecision Timer.
Proof. solve_decision. Defined.
#[global] Instance EventType_eq_dec : EqDecision EventType.
Proof. solve_decision. Defined.
#[global] Instance Target_eq_dec : EqDecision Target.
Proof. solve_decision. Defined.
#[global] Instance Obs_eq_dec : EqDecision Obs.
Proof. solve_decision. Defined.

(** ** The world *)

#[projections(primitive)]
Record World := mkWorld {
  (* the page *)
  elems : gmap node Element;       (* every element object, attached or not *)
  document : list node;            (* the attached elements, in document order *)
  body : node;                     (* document.body *)
  activeElement : option node;     (* document.activeElement *)
  innerWidth : Z;                  (* window.innerWidth *)
  (* the navigation object *)
  toggle : option node;            (* navigation.toggle, null at first *)
  nav : option node;               (* navigation.nav, null at first *)
  isOpen : bool;                   (* navigation.isOpen *)
  (* the variable timeout of the debounced resize listener *)
  timeout : option nat;
  (* the event loop *)
  now : Z;                         (* milliseconds *)
  timers : list Timer;             (* pending timers, oldest first *)
  nextTimer : nat;                 (* the id setTimeout hands out next *)
  listeners : list Listener;       (* in order of registration *)
  propagationStopped : bool;       (* flags of the event being dispatched *)
  defaultPrevented : bool;
  trace : list Obs
}.

Definition set_elems (x : gmap node Element) (w : World) : World :=
  let 'mkWorld _ b c d e f g h i j k l m n o p := w in mkWorld x b c d e f g h i j k l m n o p.
Definition set_document (x : list node) (w : World) : World :=
  let 'mkWorld a _ c d e f g h i j k l m n o p := w in mkWorld a x c d e f g h i j k l m n o p.
Definition set_activeElement (x : option node) (w : World) : World :=
  let 'mkWorld a b c _ e f g h i j k l m n o p := w in mkWorld a b c x e f g h i j k l m n o p.
Definition set_innerWidth (x : Z) (w : World) : World :=
  let 'mkWorld a b c d _ f g h i j k l m n o p := w in mkWorld a b c d x f g h i j k l m n o p.
Definition set_toggle (x : option node) (w : World) : World :=
  let 'mkWorld a b c d e _ g h i j k l m n o p := w in mkWorld a b c d e x g h i j k l m n o p.
Definition set_nav (x : option node) (w : World) : World :=
  let 'mkWorld a b c d e f _ h i j k l m n o p := w in mkWorld a b c d e f x h i j k l m n o p.
Definition set_isOpen (x : bool) (w : World) : World :=
  let 'mkWorld a b c d e f g _ i j k l m n o p := w in mkWorld a b c d e f g x i j k l m n o p.
Definition set_timeout (x : option nat) (w : World) : World :=
  let 'mkWorld a b c d e f g h _ j k l m n o p := w in mkWorld a b c d e f g h x j k l m n o p.
Definition set_now (x : Z) (w : World) : World :=
  let 'mkWorld a b c d e f g h i _ k l m n o p := w in mkWorld a b c d e f g h i x k l m n o p.
Definition set_timers (x : list Timer) (w : World) : World :=
  let 'mkWorld a b c d e f g h i j _ l m n o p := w in mkWorld a b c d e f g h i j x l m n o p.
Definition set_nextTimer (x : nat) (w : World) : World :=
  let 'mkWorld a b c d e f g h i j k _ m n o p := w in mkWorld a b c d e f g h i j k x m n o p.
Definition set_listeners (x : list Listener) (w : World) : World :=
  let 'mkWorld a b c d e f g h i j k l _ n o p := w in mkWorld a b c d e f g h i j k l x n o p.
Definition set_propagationStopped (x : bool) (w : World) : World :=
  let 'mkWorld a b c d e f g h i j k l m _ o p := w in mkWorld a b c d e f g h i j k l m x o p.
Definition set_defaultPrevented (x : bool) (w : World) : World :=
  let 'mkWorld a b c d e f g h i j k l m n _ p := w in mkWorld a b c d e f g h i j k l m n x p.
Definition set_trace (x : list Obs) (w : World) : World :=
  let 'mkWorld a b c d e f g h i j k l m n o _ := w in mkWorld a b c d e f g h i j k l m n o x.

(** ** The monad of statements *)

Inductive Res (A : Type) := Ok (a : A) | Throw.
Arguments Ok {A} a.
Arguments Throw {A}.

Definition M (A : Type) : Type := World → Res A * World.

Definition ret {A} (a : A) : M A := λ w, (Ok a, w).

Definition bind {A B} (m : M A) (f : A → M B) : M B := λ w,
  match m w with
  | (Ok a, w') => f a w'
  | (Throw, w') => (Throw, w')
  end.

Declare Scope M_scope.
Delimit Scope M_scope with M.
Bind Scope M_scope with M.
Notation "x ← y ; z" := (bind y (λ x, z))
  (at level 20, y at level 100, z at level 200, only parsing) : M_scope.
Notation "x ;; z" := (bind x (λ _, z))
  (at level 100, z at level 200, only parsing, right associativity) : M_scope.
Open Scope M_scope.

Definition gets {A} (f : World → A) : M A := λ w, (Ok (f w), w).
Definition modify (f : World → World) : M unit := λ w, (Ok tt, f w).
Definition throw {A} : M A := λ w, (Throw, w).

(** Member access on a value that may be null or undefined. *)
Definition deref {A} (o : option A) : M A :=
  match o with Some a => ret a | None => throw end.

(** The world a computation leaves behind, and whether it completed. *)
Definition exec {A} (m : M A) (w : World) : World := (m w).2.
Definition completes {A} (m : M A) (w : World) : bool :=
  match (m w).1 with Ok _ => true | Throw => false end.

(** An exception raised inside a listener or a timer callback is reported
    by the browser and does not reach the caller. *)
Definition attempt (m : M unit) : M unit := λ w, (Ok tt, exec m w).

(** a && b for conditions with effects: b is evaluated only when a holds. *)
Definition and_then (a b : M bool) : M bool :=
  x ← a; if x then b else ret false.

(** Array.prototype.forEach((item, index) => ...) *)
Fixpoint for_each_from {A} (i : nat) (l : list A) (f : A → nat → M unit) : M unit :=
  match l with
  | [] => ret tt
  | x :: l' => f x i;; for_each_from (S i) l' f
  end.
Definition for_each {A} (l : list A) (f : A → nat → M unit) : M unit :=
  for_each_from 0 l f.

(** ** The DOM *)

Definition element (w : World) (n : node) : Element :=
  default blank (elems w !! n).

(** Replace element n by f of it. *)
Definition upd (n : node) (f : Element → Element) (w : World) : World :=
  set_elems (<[n := f (element w n)]> (elems w)) w.

Definition update_element (n : node) (f : Element → Element) : M unit :=
  modify (upd n f).

Definition classList_add (n : node) (c : string) : M unit :=
  update_element n (el_add_class c).
Definition classList_remove (n : node) (c : string) : M unit :=
  update_element n (el_remove_class c).
Definition setAttribute (n : node) (k v : string) : M unit :=
  update_element n (el_set_attr k v).
Definition removeAttribute (n : node) (k : string) : M unit :=
  update_element n (el_remove_attr k).
Definition getAttribute (n : node) (k : string) : M (option string) :=
  gets (λ w, attributes (element w n) !! k).

Definition has_class (w : World) (n : node) (c : string) : bool :=
  el_has_class c (element w n).
Definition attribute (w : World) (n : node) (k : string) : option string :=
  attributes (element w n) !! k.

(** The inclusive ancestors of n, n first.  A tree over the stored elements
    is no deeper than their number, which bounds the walk. *)
Fixpoint ancestors (fuel : nat) (els : gmap node Element) (n : node) : list node :=
  match fuel with
  | O => []
  | S fuel' =>
      n :: match parentNode (default blank (els !! n)) with
           | Some p => ancestors fuel' els p
           | None => []
           end
  end.

Definition path_of (w : World) (n : node) : list node :=
  ancestors (S (size (elems w))) (elems w) n.

(** Node.contains: b is a or a descendant of a. *)
Definition node_contains (w : World) (a b : node) : bool :=
  bool_decide (a ∈ path_of w b).

(** a.contains(e.target); the document and the window are inside no element. *)
Definition inside (w : World) (a : node) (t : Target) : bool :=
  match t with
  | OnNode b => node_contains w a b
  | _ => false
  end.

Definition contains (a : node) (t : Target) : M bool :=
  gets (λ w, inside w a t).

(** The selectors of CONFIG are single class selectors: a dot and a name. *)
Definition selector_class (sel : string) : option string :=
  match sel with
  | String "."%char name => Some name
  | _ => None
  end.

Definition matches (w : World) (sel : string) (context : option node) (n : node) : bool :=
  match selector_class sel with
  | Some c =>
      has_class w n c &&
      match context with
      | None => true
      | Some ctx => negb (bool_decide (n = ctx)) && node_contains w ctx n
      end
  | None => false
  end.

(** context.querySelectorAll(sel); context None is the document. *)
Definition querySelectorAll (sel : string) (context : option node) : M (list node) :=
  gets (λ w, List.filter (matches w sel context) (document w)).

Definition querySelector (sel : string) (context : option node) : M (option node) :=
  l ← querySelectorAll sel context; ret (head l).

(** element.focus(): the call is recorded; an element that is in the
    document and focusable becomes the active element, on any other nothing
    moves. *)
Definition can_focus (w : World) (n : node) : bool :=
  bool_decide (n ∈ document w) && focusable (element w n).

Definition focus (n : node) : M unit :=
  modify (λ w,
    set_trace (trace w ++ [FocusCall n])
      (if can_focus w n then set_activeElement (Some n) w else w)).

Definition addEventListener (t : Target) (ty : EventType) (h : Handler) : M unit :=
  modify (λ w, set_listeners (listeners w ++ [mkListener t ty h]) w).

Definition stopPropagation : M unit := modify (set_propagationStopped true).
Definition preventDefault : M unit := modify (set_defaultPrevented true).

Definition setTimeout (cb : Callback) (delay : Z) : M nat :=
  λ w, (Ok (nextTimer w),
        set_nextTimer (S (nextTimer w))
          (set_timers (timers w ++ [mkTimer (nextTimer w) (now w + delay) cb]) w)).

(** clearTimeout(id); clearTimeout(undefined) does nothing. *)
Definition clearTimeout (id : option nat) : M unit :=
  match id with
  | Some i => modify (λ w, set_timers (List.filter (λ t, negb (bool_decide (tid t = i))) (timers w)) w)
  | None => ret tt
  end.

(** ** CONFIG *)

Module CONFIG.
Module breakpoints.
Definition mobile : Z := 768.
Definition tablet : Z := 1024.
End breakpoints.
Module selectors.
Definition toggle : string := ".mobile-menu-toggle".
Definition nav : string := ".main-nav".
Definition navLinks : string := ".nav-link".
Definition skipLink : string := ".skip-link".
End selectors.
Module classes.
Definition active : string := "active".
Definition menuOpen : string := "menu-open".
Definition loaded : string := "loaded".
Definition visuallyHidden : string := "visually-hidden".
End classes.
Module aria.
Definition expanded : string := "aria-expanded".
Definition hidden : string := "aria-hidden".
Definition label : string := "aria-label".
End aria.
End CONFIG.

(** ** utils *)

Module utils.

(** debounce(func, wait) returns [executedFunction]; the timer it arms runs
    [later].  Both share the variable timeout of the enclosing call, and
    the script calls debounce once, so that variable is a field of the
    world. *)
Definition later (func : M unit) : M unit :=
  t ← gets timeout;
  clearTimeout t;;
  func.

Definition executedFunction (wait : Z) : M unit :=
  t ← gets timeout;
  clearTimeout t;;
  id ← setTimeout Later wait;
  modify (set_timeout (Some id)).

Definition isMobile : M bool :=
  gets (λ w, (innerWidth w <? CONFIG.breakpoints.mobile)%Z).

(** utils.$ and utils.$$ *)
Definition sel (selector : string) (context : option node) : M (option node) :=
  querySelector selector context.
Definition sel_all (selector : string) (context : option node) : M (list node) :=
  querySelectorAll selector context.

(** on(element, event, handler): a null element registers nothing; every
    handler the script passes is a function. *)
Definition on (element : option Target) (event : EventType) (handler : Handler) : M unit :=
  match element with
  | Some t => addEventListener t event handler
  | None => ret tt
  end.

End utils.

(** ** navigation *)

(** links[i] of a NodeList: undefined outside 0 .. length-1. *)
Definition item (l : list node) (i : Z) : option node :=
  if (i <? 0)%Z then None else l !! Z.to_nat i.

(** a || b on values that are an element or undefined. *)
Definition or_else (a b : option node) : option node :=
  match a with Some _ => a | None => b end.

Module navigation.

Definition this_toggle : M node := t ← gets toggle; deref t.
Definition this_nav : M node := n ← gets nav; deref n.

Definition openMenu : M unit :=
  modify (set_isOpen true);;
  n ← this_nav;
  classList_add n CONFIG.classes.active;;
  b ← gets body;
  classList_add b CONFIG.classes.menuOpen;;
  t ← this_toggle;
  setAttribute t CONFIG.aria.expanded "true";;
  n ← this_nav;
  setAttribute n CONFIG.aria.hidden "false";;
  n ← this_nav;
  firstLink ← utils.sel CONFIG.selectors.navLinks (Some n);
  match firstLink with
  | Some l => _ ← setTimeout (FocusLink l) 100; ret tt
  | None => ret tt
  end.

Definition closeMenu : M unit :=
  modify (set_isOpen false);;
  n ← this_nav;
  classList_remove n CONFIG.classes.active;;
  b ← gets body;
  classList_remove b CONFIG.classes.menuOpen;;
  t ← this_toggle;
  setAttribute t CONFIG.aria.expanded "false";;
  n ← this_nav;
  setAttribute n CONFIG.aria.hidden "true".

Definition toggleMenu : M unit :=
  o ← gets isOpen;
  if o then closeMenu else openMenu.

(** The listeners of bindEvents. *)

Definition on_toggle_click (e : Event) : M unit :=
  stopPropagation;;
  toggleMenu.

Definition on_link_click (e : Event) : M unit :=
  m ← utils.isMobile;
  if m then closeMenu else ret tt.

Definition on_document_click (e : Event) : M unit :=
  c ← and_then (gets isOpen)
        (and_then (t ← this_toggle; c ← contains t (ev_target e); ret (negb c))
                  (n ← this_nav; c ← contains n (ev_target e); ret (negb c)));
  if c then closeMenu else ret tt.

Definition on_document_keydown (e : Event) : M unit :=
  c ← and_then (ret (bool_decide (ev_key e = "Escape"))) (gets isOpen);
  if c then
    closeMenu;;
    t ← this_toggle;
    focus t
  else ret tt.

(** The function handed to debounce. *)
Definition resize_check : M unit :=
  c ← and_then (m ← utils.isMobile; ret (negb m)) (gets isOpen);
  if c then closeMenu else ret tt.

Definition on_window_resize (e : Event) : M unit :=
  utils.executedFunction 150.

(** The listener of setupAccessibility, for the link at [index] of [links]. *)
Definition on_link_keydown (links : list node) (index : nat) (e : Event) : M unit :=
  if bool_decide (ev_key e = "ArrowDown") || bool_decide (ev_key e = "ArrowRight") then
    preventDefault;;
    next ← deref (or_else (item links (Z.of_nat index + 1)) (item links 0));
    focus next
  else if bool_decide (ev_key e = "ArrowUp") || bool_decide (ev_key e = "ArrowLeft") then
    preventDefault;;
    prev ← deref (or_else (item links (Z.of_nat index - 1))
                          (item links (Z.of_nat (length links) - 1)));
    focus prev
  else ret tt.

Definition bindEvents : M unit :=
  t ← gets toggle;
  utils.on (OnNode <$> t) Click ToggleClick;;
  n ← this_nav;
  links ← utils.sel_all CONFIG.selectors.navLinks (Some n);
  for_each links (λ link _, utils.on (Some (OnNode link)) Click LinkClick);;
  utils.on (Some OnDocument) Click DocumentClick;;
  utils.on (Some OnDocument) Keydown DocumentKeydown;;
  utils.on (Some OnWindow) Resize WindowResize.

Definition setupAccessibility : M unit :=
  t ← this_toggle;
  setAttribute t CONFIG.aria.expanded "false";;
  n ← this_nav;
  setAttribute n CONFIG.aria.hidden "true";;
  n ← this_nav;
  links ← utils.sel_all CONFIG.selectors.navLinks (Some n);
  for_each links (λ link index,
    utils.on (Some (OnNode link)) Keydown (LinkKeydown links index)).

Definition init : M unit :=
  t ← utils.sel CONFIG.selectors.toggle None;
  modify (set_toggle t);;
  n ← utils.sel CONFIG.selectors.nav None;
  modify (set_nav n);;
  t ← gets toggle;
  n ← gets nav;
  if negb (bool_decide (is_Some t)) || negb (bool_decide (is_Some n)) then ret tt
  else
    bindEvents;;
    setupAccessibility.

End navigation.

(** ** lazyLoad *)

Module lazyLoad.

(** img.dataset.src reads the attribute data-src; the empty string is
    falsy, like undefined. *)
Definition loadImage (img : node) : M unit :=
  src ← getAttribute img "data-src";
  match src with
  | Some s =>
      if bool_decide (s = EmptyString) then ret tt
      else
        setAttribute img "src" s;;
        removeAttribute img "data-src";;
        classList_add img CONFIG.classes.loaded
  | None => ret tt
  end.

End lazyLoad.

(** ** The event loop *)

Definition run_callback (cb : Callback) : M unit :=
  match cb with
  | FocusLink l => focus l
  | Later => utils.later navigation.resize_check
  end.

Definition handle (h : Handler) (e : Event) : M unit :=
  match h with
  | ToggleClick => navigation.on_toggle_click e
  | LinkClick => navigation.on_link_click e
  | DocumentClick => navigation.on_document_click e
  | DocumentKeydown => navigation.on_document_keydown e
  | WindowResize => navigation.on_window_resize e
  | LinkKeydown links index => navigation.on_link_keydown links index e
  end.

(** Timers fire in the order of their due time, the older first among equals. *)
Definition sooner (a b : Timer) : bool :=
  (due a <? due b)%Z || ((due a =? due b)%Z && (tid a <=? tid b)%nat).

Fixpoint next_due (limit : Z) (ts : list Timer) : option Timer :=
  match ts with
  | [] => None
  | t :: ts' =>
      if (due t <=? limit)%Z then
        match next_due limit ts' with
        | Some u => if sooner t u then Some t else Some u
        | None => Some t
        end
      else next_due limit ts'
  end.

Fixpoint remove_timer (t : Timer) (ts : list Timer) : list Timer :=
  match ts with
  | [] => []
  | u :: ts' => if bool_decide (u = t) then ts' else u :: remove_timer t ts'
  end.

(** Fire one timer: it leaves the queue, the clock reaches its due time, its
    callback runs to completion. *)
Definition dequeue (t : Timer) (w : World) : World :=
  set_trace (trace w ++ [Fired t])
    (set_now (Z.max (now w) (due t))
       (set_timers (remove_timer t (timers w)) w)).

Definition fire (t : Timer) : M unit :=
  modify (dequeue t);;
  attempt (run_callback (callback t)).

(** Fire what is due up to [limit].  No callback of the script arms a timer,
    so the length of the queue bounds the number of rounds. *)
Fixpoint run_timers (fuel : nat) (limit : Z) (w : World) : World :=
  match fuel with
  | O => w
  | S fuel' =>
      match next_due limit (timers w) with
      | Some t => run_timers fuel' limit (exec (fire t) w)
      | None => w
      end
  end.

(** Let the clock run to [t]. *)
Definition advance_to (t : Z) (w : World) : World :=
  let w' := run_timers (length (timers w)) t w in
  set_now (Z.max (now w') t) w'.

(** Dispatch: the listeners on the target, then on each ancestor, then on
    the document and the window, until one stops the propagation. *)
Definition listeners_for (cur : Target) (ty : EventType) (ls : list Listener) : list Listener :=
  List.filter (λ l, bool_decide (l_target l = cur) && bool_decide (l_type l = ty)) ls.

Fixpoint invoke (ls : list Listener) (e : Event) : M unit :=
  match ls with
  | [] => ret tt
  | l :: ls' => attempt (handle (l_handler l) e);; invoke ls' e
  end.

Fixpoint propagate (path : list Target) (e : Event) : M unit :=
  match path with
  | [] => ret tt
  | cur :: path' =>
      ls ← gets listeners;
      invoke (listeners_for cur (ev_type e) ls) e;;
      stopped ← gets propagationStopped;
      if stopped then ret tt else propagate path' e
  end.

Definition event_path (w : World) (e : Event) : list Target :=
  match ev_target e with
  | OnNode n =>
      (OnNode <$> path_of w n) ++
      match ev_type e with Resize => [] | _ => [OnDocument; OnWindow] end
  | OnDocument => [OnDocument; OnWindow]
  | OnWindow => [OnWindow]
  end.

Definition dispatchEvent (e : Event) : M unit :=
  modify (set_propagationStopped false);;
  modify (set_defaultPrevented false);;
  path ← gets (λ w, event_path w e);
  propagate path e.

(** The user resizes the window to [width]. *)
Definition resize_to (width : Z) : M unit :=
  modify (set_innerWidth width);;
  dispatchEvent (mkEvent Resize OnWindow EmptyString).

(** An element leaves the document (a script removes it, or the page is
    replaced); the object lives on for whoever holds it. *)
Definition detach (n : node) : M unit :=
  modify (λ w, set_document (List.filter (λ x, negb (bool_decide (x = n))) (document w)) w).

(** ** A page to run the script on

    body 0 holds the toggle button 1, the menu container 2 with the links 3,
    4 and 5, and the main content 6; the button and the links are focusable;
    the viewport is 375 wide. *)

Definition page_elems : gmap node Element :=
  list_to_map
    [ (0, mkElement None [] ∅ false);
      (1, mkElement (Some 0) ["mobile-menu-toggle"] ∅ true);
      (2, mkElement (Some 0) ["main-nav"] ∅ false);
      (3, mkElement (Some 2) ["nav-link"] ∅ true);
      (4, mkElement (Some 2) ["nav-link"] ∅ true);
      (5, mkElement (Some 2) ["nav-link"] ∅ true);
      (6, mkElement (Some 0) ["content"] ∅ false) ].

Definition page : World :=
  mkWorld page_elems [0; 1; 2; 3; 4; 5; 6] 0 None 375
          None None false None 0 [] 1 [] false false [].

(** The same page without a menu container. *)
Definition page_without_nav : World :=
  set_document [0; 1; 6] page.

(** The page once the script has run. *)
Definition ready_page : World := exec navigation.init page.

(** ** Notions used in the statements *)

(** The calls of the controller's three operations. *)
Inductive Call := CallOpen | CallClose | CallToggle.

Definition call (c : Call) : M unit :=
  match c with
  | CallOpen => navigation.openMenu
  | CallClose => navigation.closeMenu
  | CallToggle => navigation.toggleMenu
  end.

(** The worlds after each call of a sequence, in order. *)
Fixpoint states_after (calls : list Call) (w : World) : list World :=
  match calls with
  | [] => []
  | c :: calls' => exec (call c) w :: states_after calls' (exec (call c) w)
  end.

(** The four mirrors agree with isOpen, as the invariant reads. *)
Definition mirrors_agree (w : World) : Prop :=
  ∃ t n, toggle w = Some t ∧ nav w = Some n ∧
    (isOpen w = true ↔ has_class w n CONFIG.classes.active = true) ∧
    (has_class w n CONFIG.classes.active = true ↔
       has_class w (body w) CONFIG.classes.menuOpen = true) ∧
    (has_class w (body w) CONFIG.classes.menuOpen = true ↔
       attribute w t CONFIG.aria.expanded = Some "true") ∧
    (attribute w t CONFIG.aria.expanded = Some "true" ↔
       attribute w n CONFIG.aria.hidden = Some "false").

(** The values openMenu and closeMenu write for isOpen = b. *)
Definition bool_attr (b : bool) : string := if b then "true" else "false".

Definition synced (w : World) : Prop :=
  ∃ t n, toggle w = Some t ∧ nav w = Some n ∧
    has_class w n CONFIG.classes.active = isOpen w ∧
    has_class w (body w) CONFIG.classes.menuOpen = isOpen w ∧
    attribute w t CONFIG.aria.expanded = Some (bool_attr (isOpen w)) ∧
    attribute w n CONFIG.aria.hidden = Some (bool_attr (negb (isOpen w))).

(** MenuState: isOpen and its four mirrors. *)
Definition menu_state (w : World)
  : bool * option (bool * bool * option string * option string) :=
  (isOpen w,
   match toggle w, nav w with
   | Some t, Some n =>
       Some (has_class w n CONFIG.classes.active,
             has_class w (body w) CONFIG.classes.menuOpen,
             attribute w t CONFIG.aria.expanded,
             attribute w n CONFIG.aria.hidden)
   | _, _ => None
   end).

(** What closeMenu and openMenu write, for the handles t and n. *)
Definition mark_closed (t n : node) (w : World) : World :=
  upd n (el_set_attr CONFIG.aria.hidden "true")
    (upd t (el_set_attr CONFIG.aria.expanded "false")
       (upd (body w) (el_remove_class CONFIG.classes.menuOpen)
          (upd n (el_remove_class CONFIG.classes.active)
             (set_isOpen false w)))).

Definition mark_open (t n : node) (w : World) : World :=
  upd n (el_set_attr CONFIG.aria.hidden "false")
    (upd t (el_set_attr CONFIG.aria.expanded "true")
       (upd (body w) (el_add_class CONFIG.classes.menuOpen)
          (upd n (el_add_class CONFIG.classes.active)
             (set_isOpen true w)))).

(** The first link inside n, as openMenu looks it up. *)
Definition first_link (w : World) (n : node) : option node :=
  head (List.filter (matches w CONFIG.selectors.navLinks (Some n)) (document w)).

(** setTimeout(cb, delay), the world part. *)
Definition arm (cb : Callback) (delay : Z) (w : World) : World :=
  exec (setTimeout cb delay) w.

Definition schedule_focus (n : node) (w : World) : World :=
  match first_link w n with
  | Some l => arm (FocusLink l) 100 w
  | None => w
  end.

(** The first element of the document that matches a selector. *)
Definition found (w : World) (sel : string) : option node :=
  head (List.filter (matches w sel None) (document w)).

(** What dispatchEvent does before any listener runs. *)
Definition fresh_event (w : World) : World :=
  set_defaultPrevented false (set_propagationStopped false w).

(** The world in which the focus transfer of openMenu is pending and the
    first link has left the document. *)
Definition stale_link_world : World :=
  exec (detach 3) (exec navigation.openMenu ready_page).

(** An image waiting to be loaded, as element 7 of the page. *)
Definition page_with_image : World :=
  upd 7 (el_set_attr "data-src" "photo.jpg") page.

(** ** The debounced resize listener, observed *)

Definition is_later (t : Timer) : bool := bool_decide (callback t = Later).

(** The pending timers that will run the resize check. *)
Definition pending_checks (w : World) : list Timer :=
  List.filter is_later (timers w).

Definition is_check (o : Obs) : bool :=
  match o with
  | Fired t => is_later t
  | FocusCall _ => false
  end.

(** How many times the resize check has run: once per fired [Later]. *)
Definition evaluations (w : World) : nat :=
  length (List.filter is_check (trace w)).

(** A burst of resize events, each a time and the width the window takes:
    the clock runs to the time of the event, the window takes the width,
    the listener runs. *)
Definition resize_at (t width : Z) (w : World) : World :=
  exec (navigation.on_window_resize (mkEvent Resize OnWindow EmptyString))
       (set_innerWidth width (advance_to t w)).

Fixpoint burst (events : list (Z * Z)) (w : World) : World :=
  match events with
  | [] => w
  | (t, width) :: events' => burst events' (resize_at t width w)
  end.

(** Each event comes less than the debounce interval after the one before. *)
Fixpoint rapid (prev : Z) (events : list (Z * Z)) : Prop :=
  match events with
  | [] => True
  | (t, _) :: events' => (prev ≤ t < prev + 150)%Z ∧ rapid t events'
  end.

(** The time and the width of the last event of a burst that starts with
    (t, width). *)
Definition last_time (t width : Z) (events : list (Z * Z)) : Z :=
  (List.last events (t, width)).1.
Definition last_width (t width : Z) (events : list (Z * Z)) : Z :=
  (List.last events (t, width)).2.

(** The resize check is armed for 150 ms after the event at time t, and
    nothing else will run it. *)
Definition armed (w : World) (t : Z) : Prop :=
  ∃ id, pending_checks w = [mkTimer id (t + 150) Later] ∧
        timeout w = Some id ∧ now w = t.

(** Every pending resize check is the one the variable timeout names. *)
Definition checks_named (w : World) : Prop :=
  ∀ x, x ∈ pending_checks w → timeout w = Some (tid x).

(** What the resize listener and its timer depend on and decide. *)
Definition sched_view (w : World) : list Timer * option nat * bool * Z * nat :=
  (pending_checks w, timeout w, isOpen w, innerWidth w, evaluations w).

(** The listeners forEach registers, one per item, from index i on. *)
Fixpoint registered_from {A} (g : A → nat → Listener) (i : nat) (l : list A) : list Listener :=
  match l with
  | [] => []
  | x :: l' => g x i :: registered_from g (S i) l'
  end.

(** What setupAccessibility writes to announce a closed menu. *)
Definition announce_closed (t n : node) (w : World) : World :=
  upd n (el_set_attr CONFIG.aria.hidden "true")
    (upd t (el_set_attr CONFIG.aria.expanded "false") w).

(** ** The page as the script drives it *)

(** What can happen to the page once the script is set up: an event is
    dispatched, the clock runs, the window is resized, or a script calls one
    of the controller's operations. *)
Inductive Input :=
  | Dispatch (e : Event)
  | Advance (t : Z)
  | ResizeTo (width : Z)
  | Invoke (c : Call).

Definition react (w : World) (i : Input) : World :=
  match i with
  | Dispatch e => exec (dispatchEvent e) w
  | Advance t => advance_to t w
  | ResizeTo width => exec (resize_to width) w
  | Invoke c => exec (call c) w
  end.

(** Two worlds show the same menu: the same elements, isOpen, handles and
    body. *)
Definition same_menu (w w' : World) : Prop :=
  elems w' = elems w ∧ isOpen w' = isOpen w ∧ toggle w' = toggle w ∧
  nav w' = nav w ∧ body w' = body w.

(** Two worlds hold the same page: every element reads the same, and all
    that is not the element store is equal. *)
Definition same_page (w w' : World) : Prop :=
  (∀ m, element w' m = element w m) ∧ set_elems ∅ w' = set_elems ∅ w.

(** The links inside the container n, in document order, as bindEvents and
    setupAccessibility look them up. *)
Definition nav_links (w : World) (n : node) : list node :=
  List.filter (matches w CONFIG.selectors.navLinks (Some n)) (document w).

(** A computation keeps a relation between the world it receives and the
    world it leaves, whether it completes or throws. *)
Definition keeps {A} (R : World → World → Prop) (m : M A) : Prop :=
  ∀ w, R w (exec m w).

(** The resize check and the variable that names it are untouched. *)
Definition same_sched (w w' : World) : Prop :=
  pending_checks w' = pending_checks w ∧ timeout w' = timeout w.

(** At most one resize check is pending, and it is the one the variable
    timeout names. *)
Definition one_check (w : World) : Prop :=
  pending_checks w = [] ∨
  ∃ x, pending_checks w = [x] ∧ timeout w = Some (tid x).

(** ** The page once it is set up *)

(** The listeners bindEvents and setupAccessibility register for the toggle
    t and the links they find, in the order of registration. *)
Definition wiring (t : node) (links : list node) : list Listener :=
  [mkListener (OnNode t) Click ToggleClick] ++
  ((λ l, mkListener (OnNode l) Click LinkClick) <$> links) ++
  [mkListener OnDocument Click DocumentClick;
   mkListener OnDocument Keydown DocumentKeydown;
   mkListener OnWindow Resize WindowResize] ++
  imap (λ i l, mkListener (OnNode l) Keydown (LinkKeydown links i)) links.

(** The store holds the element. *)
Definition stored (w : World) (x : node) : Prop := is_Some (elems w !! x).

(** A page as the browser hands it to the script: nothing registered yet,
    and the body is one of its elements. *)
Definition fresh_page (w : World) : Prop :=
  listeners w = [] ∧ stored w (body w).

(** The script is set up on w for the toggle t, the container n and the
    links: the handles hold t and n, the listeners are those of setup and
    no others, and t, n and the body are elements of the store. *)
Definition wired (t n : node) (links : list node) (w : World) : Prop :=
  toggle w = Some t ∧ nav w = Some n ∧ listeners w = wiring t links ∧
  stored w t ∧ stored w n ∧ stored w (body w).

(** w' has the tree of w: the same document and body, the same number of
    elements, and every element has the parent and the focusability it had. *)
Definition same_tree (w w' : World) : Prop :=
  document w' = document w ∧ body w' = body w ∧
  size (elems w') = size (elems w) ∧
  (∀ y, parentNode (element w' y) = parentNode (element w y)) ∧
  (∀ y, focusable (element w' y) = focusable (element w y)).

(** w' is w after the script has reacted: handles, listeners and tree are
    those of w, and what was stored is stored. *)
Definition calm (w w' : World) : Prop :=
  toggle w' = toggle w ∧ nav w' = nav w ∧ listeners w' = listeners w ∧
  same_tree w w' ∧ (∀ y, stored w y → stored w' y).

(** No link of the list is a proper ancestor of l: a key pressed on l
    reaches the key listener of no other link. *)
Definition apart (w : World) (links : list node) (l : node) : bool :=
  forallb (λ l', negb (bool_decide (l' ∈ tail (path_of w l)))) links.

(** The targets an event passes below the document: the target element and
    its ancestors. *)
Definition below_document (w : World) (target : Target) : list Target :=
  match target with
  | OnNode x => OnNode <$> path_of w x
  | _ => []
  end.

(** The target lies inside none of the links. *)
Definition on_no_link (w : World) (links : list node) (target : Target) : bool :=
  forallb (λ l, negb (inside w l target)) links.

(** The click on the toggle that opens the menu of the sample page, and the
    same followed by a resize of the window to 1024. *)
Definition opening : list Input :=
  [Dispatch (mkEvent Click (OnNode 1) EmptyString)].

Definition opening_wide : list Input :=
  [Dispatch (mkEvent Click (OnNode 1) EmptyString); ResizeTo 1024].

(** * Properties *)

(** ** Reading elements after an update *)

Lemma element_upd n f w m :
  element (upd n f w) m = if decide (m = n) then f (element w n) else element w m.
Proof.
  unfold element at 1, upd. cbn. rewrite lookup_insert.
  destruct (decide (n = m)), (decide (m = n)); subst; try done.
Qed.

Lemma has_class_elems w w' n c : elems w = elems w' → has_class w n c = has_class w' n c.
Proof. unfold has_class, element. by intros ->. Qed.

Lemma attribute_elems w w' n k : elems w = elems w' → attribute w n k = attribute w' n k.
Proof. unfold attribute, element. by intros ->. Qed.

Lemma has_class_upd_attr n k v w m c :
  has_class (upd n (el_set_attr k v) w) m c = has_class w m c.
Proof. unfold has_class. rewrite element_upd. by case_decide; subst. Qed.

Lemma token_add_elem c c' cs : c ∈ token_add c' cs ↔ c = c' ∨ c ∈ cs.
Proof.
  unfold token_add. case_bool_decide.
  - split; [by right | intros [-> |]; done].
  - rewrite elem_of_app, list_elem_of_singleton. tauto.
Qed.

Lemma token_remove_elem c c' cs : c ∈ token_remove c' cs ↔ c ≠ c' ∧ c ∈ cs.
Proof.
  unfold token_remove. rewrite list_elem_of_In, filter_In, <- list_elem_of_In.
  rewrite negb_true_iff, bool_decide_eq_false. tauto.
Qed.

Lemma has_class_upd_add n c' w m c :
  has_class (upd n (el_add_class c') w) m c =
  bool_decide (m = n ∧ c = c') || has_class w m c.
Proof.
  unfold has_class, el_has_class. rewrite element_upd.
  apply eq_true_iff_eq. rewrite orb_true_iff, !bool_decide_eq_true.
  destruct (decide (m = n)) as [-> | Hne]; cbn.
  - rewrite token_add_elem. intuition congruence.
  - intuition congruence.
Qed.

Lemma has_class_upd_remove n c' w m c :
  has_class (upd n (el_remove_class c') w) m c =
  negb (bool_decide (m = n ∧ c = c')) && has_class w m c.
Proof.
  unfold has_class, el_has_class. rewrite element_upd.
  apply eq_true_iff_eq.
  rewrite andb_true_iff, negb_true_iff, bool_decide_eq_false, !bool_decide_eq_true.
  destruct (decide (m = n)) as [-> | Hne]; cbn.
  - rewrite token_remove_elem. intuition congruence.
  - intuition congruence.
Qed.

Lemma attribute_upd_add n c w m k :
  attribute (upd n (el_add_class c) w) m k = attribute w m k.
Proof. unfold attribute. rewrite element_upd. by case_decide; subst. Qed.

Lemma attribute_upd_remove n c w m k :
  attribute (upd n (el_remove_class c) w) m k = attribute w m k.
Proof. unfold attribute. rewrite element_upd. by case_decide; subst. Qed.

Lemma attribute_upd_set n k' v w m k :
  attribute (upd n (el_set_attr k' v) w) m k =
  if decide (m = n ∧ k = k') then Some v else attribute w m k.
Proof.
  unfold attribute. rewrite element_upd.
  destruct (decide (m = n)) as [-> | Hne]; cbn.
  - rewrite lookup_insert.
    destruct (decide (k' = k)) as [-> | Hk].
    + by rewrite decide_True.
    + rewrite decide_False; [done | intuition congruence].
  - rewrite decide_False; [done | intuition congruence].
Qed.

Lemma attribute_upd_delete n k' w m k :
  attribute (upd n (el_remove_attr k') w) m k =
  if decide (m = n ∧ k = k') then None else attribute w m k.
Proof.
  unfold attribute. rewrite element_upd.
  destruct (decide (m = n)) as [-> | Hne]; cbn.
  - rewrite lookup_delete.
    destruct (decide (k' = k)) as [-> | Hk].
    + by rewrite decide_True.
    + rewrite decide_False; [done | intuition congruence].
  - rewrite decide_False; [done | intuition congruence].
Qed.

(** ** What the three operations compute *)

Lemma closeMenu_run w t n :
  toggle w = Some t → nav w = Some n →
  navigation.closeMenu w = (Ok tt, mark_closed t n w).
Proof. destruct w; cbn; intros -> ->; reflexivity. Qed.

Lemma openMenu_run w t n :
  toggle w = Some t → nav w = Some n →
  navigation.openMenu w = (Ok tt, schedule_focus n (mark_open t n w)).
Proof.
  intros Ht Hn. destruct w; cbn in Ht, Hn; subst.
  match goal with
  | |- navigation.openMenu ?w = _ =>
      change (navigation.openMenu w) with
        (match first_link (mark_open t n w) n with
         | Some l => _ ← setTimeout (FocusLink l) 100; ret tt
         | None => ret tt
         end (mark_open t n w))
  end.
  unfold schedule_focus. by destruct (first_link _ _).
Qed.

Lemma toggleMenu_run w :
  navigation.toggleMenu w =
  if isOpen w then navigation.closeMenu w else navigation.openMenu w.
Proof. unfold navigation.toggleMenu, bind, gets. by destruct w as [? ? ? ? ? ? ? [] ? ? ? ? ? ? ? ?]. Qed.

(** Scheduling the focus transfer touches the timer queue only. *)
Lemma schedule_focus_elems n w : elems (schedule_focus n w) = elems w.
Proof. unfold schedule_focus. by destruct (first_link w n). Qed.

Lemma schedule_focus_fields n w :
  toggle (schedule_focus n w) = toggle w ∧ nav (schedule_focus n w) = nav w ∧
  isOpen (schedule_focus n w) = isOpen w ∧ body (schedule_focus n w) = body w.
Proof. unfold schedule_focus. by destruct (first_link w n). Qed.

(** After closeMenu every mirror reads closed, whichever elements the
    handles and the body are. *)
Lemma mark_closed_reads t n w :
  has_class (mark_closed t n w) n CONFIG.classes.active = false ∧
  has_class (mark_closed t n w) (body w) CONFIG.classes.menuOpen = false ∧
  attribute (mark_closed t n w) t CONFIG.aria.expanded = Some "false" ∧
  attribute (mark_closed t n w) n CONFIG.aria.hidden = Some "true".
Proof.
  unfold mark_closed. repeat split.
  - rewrite !has_class_upd_attr, !has_class_upd_remove.
    rewrite (bool_decide_eq_true_2 (n = n ∧ _)) by done.
    cbn. apply andb_false_r.
  - rewrite !has_class_upd_attr, has_class_upd_remove.
    by rewrite bool_decide_eq_true_2.
  - rewrite attribute_upd_set, decide_False by (intros [_ ?]; done).
    by rewrite attribute_upd_set, decide_True.
  - by rewrite attribute_upd_set, decide_True.
Qed.

(** After openMenu every mirror reads open. *)
Lemma mark_open_reads t n w :
  has_class (mark_open t n w) n CONFIG.classes.active = true ∧
  has_class (mark_open t n w) (body w) CONFIG.classes.menuOpen = true ∧
  attribute (mark_open t n w) t CONFIG.aria.expanded = Some "true" ∧
  attribute (mark_open t n w) n CONFIG.aria.hidden = Some "false".
Proof.
  unfold mark_open. repeat split.
  - rewrite !has_class_upd_attr, !has_class_upd_add.
    rewrite (bool_decide_eq_true_2 (n = n ∧ _)) by done.
    apply orb_true_r.
  - rewrite !has_class_upd_attr, has_class_upd_add.
    by rewrite bool_decide_eq_true_2.
  - rewrite attribute_upd_set, decide_False by (intros [_ ?]; done).
    by rewrite attribute_upd_set, decide_True.
  - by rewrite attribute_upd_set, decide_True.
Qed.

Lemma closeMenu_synced w t n :
  toggle w = Some t → nav w = Some n →
  synced (exec navigation.closeMenu w) ∧ isOpen (exec navigation.closeMenu w) = false.
Proof.
  intros Ht Hn. unfold exec. rewrite (closeMenu_run w t n Ht Hn). cbn [snd].
  destruct (mark_closed_reads t n w) as (H1 & H2 & H3 & H4).
  split; [|done]. exists t, n. repeat split; done.
Qed.

Lemma openMenu_synced w t n :
  toggle w = Some t → nav w = Some n →
  synced (exec navigation.openMenu w) ∧ isOpen (exec navigation.openMenu w) = true.
Proof.
  intros Ht Hn. unfold exec. rewrite (openMenu_run w t n Ht Hn). cbn [snd].
  destruct (mark_open_reads t n w) as (H1 & H2 & H3 & H4).
  destruct (schedule_focus_fields n (mark_open t n w)) as (F1 & F2 & F3 & F4).
  pose proof (schedule_focus_elems n (mark_open t n w)) as E.
  split; [|by rewrite F3]. exists t, n.
  rewrite F1, F2, F3, F4.
  rewrite !(has_class_elems _ _ _ _ E), !(attribute_elems _ _ _ _ E).
  repeat split; done.
Qed.

Lemma exec_bind {A B} (m : M A) (f : A → M B) w a :
  (m w).1 = Ok a → exec (bind m f) w = exec (f a) (exec m w).
Proof. unfold exec, bind. destruct (m w) as [[] ?]; cbn; congruence. Qed.

Lemma synced_handles w : synced w → is_Some (toggle w) ∧ is_Some (nav w).
Proof. intros (t & n & -> & -> & _). eauto. Qed.

Lemma synced_mirrors_agree w : synced w → mirrors_agree w.
Proof.
  intros (t & n & Ht & Hn & H1 & H2 & H3 & H4). exists t, n.
  rewrite H1, H2, H3, H4. destruct (isOpen w); cbn; intuition congruence.
Qed.

Lemma synced_menu_state w :
  synced w →
  menu_state w =
  (isOpen w, Some (isOpen w, isOpen w, Some (bool_attr (isOpen w)),
                   Some (bool_attr (negb (isOpen w))))).
Proof.
  intros (t & n & Ht & Hn & H1 & H2 & H3 & H4).
  unfold menu_state. by rewrite Ht, Hn, H1, H2, H3, H4.
Qed.

Lemma toggleMenu_synced w t n :
  toggle w = Some t → nav w = Some n →
  synced (exec navigation.toggleMenu w) ∧
  isOpen (exec navigation.toggleMenu w) = negb (isOpen w).
Proof.
  intros Ht Hn. unfold exec. rewrite toggleMenu_run.
  destruct (isOpen w).
  - apply (closeMenu_synced w t n Ht Hn).
  - apply (openMenu_synced w t n Ht Hn).
Qed.

(** Every call leaves the mirrors in step with isOpen, and completes. *)
Lemma call_synced c w :
  is_Some (toggle w) → is_Some (nav w) →
  synced (exec (call c) w) ∧ completes (call c) w = true.
Proof.
  intros [t Ht] [n Hn]. destruct c; cbn [call].
  - split; [apply (openMenu_synced w t n Ht Hn)|].
    unfold completes. by rewrite (openMenu_run w t n Ht Hn).
  - split; [apply (closeMenu_synced w t n Ht Hn)|].
    unfold completes. by rewrite (closeMenu_run w t n Ht Hn).
  - split; [apply (toggleMenu_synced w t n Ht Hn)|].
    unfold completes. rewrite toggleMenu_run. destruct (isOpen w).
    + by rewrite (closeMenu_run w t n Ht Hn).
    + by rewrite (openMenu_run w t n Ht Hn).
Qed.

(** ** The invariant of MenuState *)

Lemma states_after_synced (calls : list Call) (w : World) :
  is_Some (toggle w) → is_Some (nav w) → Forall synced (states_after calls w).
Proof.
  revert w. induction calls as [|c calls IH]; intros w Ht Hn; cbn [states_after].
  - constructor.
  - destruct (call_synced c w Ht Hn) as [Hs _].
    constructor; [exact Hs|]. apply IH; by apply synced_handles.
Qed.

(** C1: after controller setup (both handles set), whatever sequence of
    open, close and toggle calls runs, after every call isOpen is true iff
    the container carries the active class iff the body carries the
    menu-open class iff aria-expanded is "true" iff aria-hidden is
    "false". *)
Theorem mirrors_agree_after_every_call (calls : list Call) (w : World) :
  is_Some (toggle w) → is_Some (nav w) →
  Forall mirrors_agree (states_after calls w).
Proof.
  intros Ht Hn. eapply Forall_impl; [by apply states_after_synced|].
  apply synced_mirrors_agree.
Qed.

Lemma mirrors_agree_after_every_call_witness :
  Forall mirrors_agree
    (states_after [CallToggle; CallOpen; CallClose; CallToggle] ready_page).
Proof.
  apply mirrors_agree_after_every_call; vm_compute; eauto.
Defined.

(** Two toggles in a row always give back isOpen and leave the mirrors in
    step with it, whatever the mirrors held before. *)
Lemma toggle_twice_isOpen (w : World) :
  is_Some (toggle w) → is_Some (nav w) →
  let w2 := exec navigation.toggleMenu (exec navigation.toggleMenu w) in
  isOpen w2 = isOpen w ∧ synced w2.
Proof.
  intros [t Ht] [n Hn]. cbn zeta.
  destruct (toggleMenu_synced w t n Ht Hn) as [Hs1 Ho1].
  destruct (synced_handles _ Hs1) as [[t1 Ht1] [n1 Hn1]].
  destruct (toggleMenu_synced _ t1 n1 Ht1 Hn1) as [Hs2 Ho2].
  split; [|exact Hs2]. rewrite Ho2, Ho1. apply negb_involutive.
Qed.

(** C5: from a state of the machine (open or closed, the mirrors holding
    what the operations write for it), two toggles in a row complete and
    give back the same isOpen and the same four mirrors. *)
Theorem toggle_twice_restores (w : World) :
  synced w →
  completes (navigation.toggleMenu;; navigation.toggleMenu) w = true ∧
  menu_state (exec (navigation.toggleMenu;; navigation.toggleMenu) w) = menu_state w.
Proof.
  intros Hs. destruct (synced_handles w Hs) as [[t Ht] [n Hn]].
  destruct (call_synced CallToggle w (ex_intro _ t Ht) (ex_intro _ n Hn)) as [Hs1 Hc1].
  destruct (toggleMenu_synced w t n Ht Hn) as [_ Ho1].
  cbn [call] in Hs1, Hc1.
  set (w1 := exec navigation.toggleMenu w) in *.
  destruct (synced_handles w1 Hs1) as [[t1 Ht1] [n1 Hn1]].
  destruct (call_synced CallToggle w1 (ex_intro _ t1 Ht1) (ex_intro _ n1 Hn1)) as [_ Hc2].
  destruct (toggleMenu_synced w1 t1 n1 Ht1 Hn1) as [Hs2 Ho2].
  cbn [call] in Hc2.
  assert (Hr : (navigation.toggleMenu w).1 = Ok tt).
  { unfold completes in Hc1. by destruct (navigation.toggleMenu w).1 as [[]|]. }
  split.
  - unfold completes, bind. unfold completes in Hc2.
    destruct (navigation.toggleMenu w) as [r w1'] eqn:E. cbn in Hr. subst r.
    replace w1' with w1; [done|]. unfold w1, exec. by rewrite E.
  - rewrite (exec_bind _ _ w tt Hr). fold w1.
    rewrite (synced_menu_state _ Hs2), (synced_menu_state _ Hs).
    rewrite Ho2, Ho1. by rewrite negb_involutive.
Qed.

Lemma toggle_twice_restores_witness :
  completes (navigation.toggleMenu;; navigation.toggleMenu) ready_page = true ∧
  menu_state (exec (navigation.toggleMenu;; navigation.toggleMenu) ready_page)
  = menu_state ready_page.
Proof.
  apply toggle_twice_restores. exists 1, 2. vm_compute. tauto.
Defined.

(** ** The listeners that close the menu *)

Lemma on_document_click_run w e t n :
  toggle w = Some t → nav w = Some n →
  navigation.on_document_click e w =
  if isOpen w && negb (inside w t (ev_target e)) && negb (inside w n (ev_target e))
  then navigation.closeMenu w else (Ok tt, w).
Proof.
  intros Ht Hn. destruct w as [? ? ? ? ? ? ? io ? ? ? ? ? ? ? ?]; cbn in Ht, Hn; subst.
  unfold navigation.on_document_click, and_then, bind, gets, ret, contains,
    navigation.this_toggle, navigation.this_nav, deref; cbn.
  destruct io; cbn; [|done].
  destruct (inside _ t _); cbn; [done|].
  by destruct (inside _ n _).
Qed.

Lemma on_link_click_run w e :
  navigation.on_link_click e w =
  if (innerWidth w <? CONFIG.breakpoints.mobile)%Z
  then navigation.closeMenu w else (Ok tt, w).
Proof.
  unfold navigation.on_link_click, utils.isMobile, bind, gets.
  by destruct (innerWidth w <? _)%Z.
Qed.

Lemma on_document_keydown_run w e t n :
  toggle w = Some t → nav w = Some n →
  navigation.on_document_keydown e w =
  if bool_decide (ev_key e = "Escape") && isOpen w
  then (Ok tt, exec (focus t) (exec navigation.closeMenu w))
  else (Ok tt, w).
Proof.
  intros Ht Hn. destruct w as [? ? ? ? ? ? ? io ? ? ? ? ? ? ? ?]; cbn in Ht, Hn; subst.
  unfold navigation.on_document_keydown, and_then, bind, gets, ret.
  destruct (bool_decide _); cbn; [|done].
  by destruct io.
Qed.

(** ** Keyboard traversal *)

Lemma item_of_nat (l : list node) (i : nat) : item l (Z.of_nat i) = l !! i.
Proof.
  unfold item. rewrite (proj2 (Z.ltb_ge _ _)) by lia. by rewrite Nat2Z.id.
Qed.

Lemma item_past_end (l : list node) : item l (Z.of_nat (length l - 1) + 1) = l !! length l.
Proof.
  destruct l as [|x l]; [done|].
  replace (Z.of_nat (length (x :: l) - 1) + 1)%Z with (Z.of_nat (length (x :: l)))
    by (cbn [length]; lia).
  apply item_of_nat.
Qed.

Lemma item_last (l : list node) : item l (Z.of_nat (length l) - 1) = last l.
Proof.
  destruct l as [|x l]; [done|].
  replace (Z.of_nat (length (x :: l)) - 1)%Z with (Z.of_nat (length l))
    by (cbn [length]; lia).
  rewrite item_of_nat, last_lookup. done.
Qed.

(** The listener writes nothing but the event's flag and the focus. *)
Lemma on_link_keydown_frame links index e w :
  let w' := exec (navigation.on_link_keydown links index e) w in
  elems w' = elems w ∧ isOpen w' = isOpen w ∧ toggle w' = toggle w ∧
  nav w' = nav w ∧ body w' = body w.
Proof.
  unfold navigation.on_link_keydown, exec, bind, preventDefault, modify, focus, deref.
  destruct (_ || _); cbn.
  - destruct (or_else _ _); cbn; [|done].
    by destruct (can_focus _ _).
  - destruct (_ || _); cbn; [|done].
    destruct (or_else _ _); cbn; [|done].
    by destruct (can_focus _ _).
Qed.

(** The listener of the last link sends the focus to the first, that of the
    first link to the last; no listener of a link touches an element. *)
Lemma on_link_keydown_wraps (links : list node) (first lst : node)
    (e : Event) (w : World) :
  head links = Some first → last links = Some lst →
  (ev_key e = "ArrowDown" ∨ ev_key e = "ArrowRight" →
     navigation.on_link_keydown links (length links - 1) e w
     = (Ok tt, exec (focus first) (set_defaultPrevented true w))) ∧
  (ev_key e = "ArrowUp" ∨ ev_key e = "ArrowLeft" →
     navigation.on_link_keydown links 0 e w
     = (Ok tt, exec (focus lst) (set_defaultPrevented true w))) ∧
  (∀ index,
     elems (exec (navigation.on_link_keydown links index e) w) = elems w ∧
     menu_state (exec (navigation.on_link_keydown links index e) w) = menu_state w).
Proof.
  intros Hf Hl. split; [|split].
  - intros Hk. unfold navigation.on_link_keydown.
    assert (Hb : bool_decide (ev_key e = "ArrowDown") || bool_decide (ev_key e = "ArrowRight") = true).
    { apply orb_true_iff. rewrite !bool_decide_eq_true. exact Hk. }
    rewrite Hb, item_past_end, (lookup_ge_None_2 links (length links)) by lia.
    change 0%Z with (Z.of_nat 0). rewrite item_of_nat, <- head_lookup, Hf. done.
  - intros Hk. unfold navigation.on_link_keydown.
    assert (Hb : bool_decide (ev_key e = "ArrowDown") || bool_decide (ev_key e = "ArrowRight") = false).
    { apply orb_false_iff. rewrite !bool_decide_eq_false.
      destruct Hk as [-> | ->]; split; discriminate. }
    assert (Hb' : bool_decide (ev_key e = "ArrowUp") || bool_decide (ev_key e = "ArrowLeft") = true).
    { apply orb_true_iff. rewrite !bool_decide_eq_true. exact Hk. }
    rewrite Hb, Hb'. change (Z.of_nat 0 - 1)%Z with (-1)%Z.
    change (item links (-1)) with (@None node).
    rewrite item_last, Hl. done.
  - intros index.
    destruct (on_link_keydown_frame links index e w) as (E & Ho & Ht & Hn & Hb).
    split; [exact E|].
    unfold menu_state. rewrite Ho, Ht, Hn, Hb.
    destruct (toggle w), (nav w); try done.
    by rewrite !(has_class_elems _ _ _ _ E), !(attribute_elems _ _ _ _ E).
Qed.

(** ** Setup without the elements *)

Lemma init_not_found_run w :
  found w CONFIG.selectors.toggle = None ∨ found w CONFIG.selectors.nav = None →
  navigation.init w =
  (Ok tt, set_nav (found w CONFIG.selectors.nav)
            (set_toggle (found w CONFIG.selectors.toggle) w)).
Proof.
  intros H.
  change (navigation.init w) with
    ((if negb (bool_decide (is_Some (found w CONFIG.selectors.toggle))) ||
         negb (bool_decide (is_Some (found w CONFIG.selectors.nav)))
      then ret tt
      else navigation.bindEvents;; navigation.setupAccessibility)
       (set_nav (found w CONFIG.selectors.nav)
          (set_toggle (found w CONFIG.selectors.toggle) w))).
  destruct H as [-> | ->].
  - done.
  - rewrite (bool_decide_eq_false_2 (is_Some None)) by (intros [? ?]; done).
    by rewrite orb_true_r.
Qed.

Lemma propagate_no_listeners path e w :
  listeners w = [] → propagate path e w = (Ok tt, w).
Proof.
  intros Hl. destruct w as [? ? ? ? ? ? ? ? ? ? ? ? ls ps ? ?]; cbn in Hl; subst ls.
  induction path as [|cur path IH]; [done|].
  cbn [propagate]. unfold bind, gets. cbn.
  destruct ps; [done|]. exact IH.
Qed.

Lemma dispatch_no_listeners e w :
  listeners w = [] → dispatchEvent e w = (Ok tt, fresh_event w).
Proof.
  intros Hl. unfold dispatchEvent, bind, modify, gets.
  by rewrite propagate_no_listeners.
Qed.

Lemma advance_no_timers t w :
  timers w = [] → advance_to t w = set_now (Z.max (now w) t) w.
Proof.
  intros Ht. destruct w as [? ? ? ? ? ? ? ? ? ? ts ? ? ? ? ?]; cbn in Ht; subst ts.
  reflexivity.
Qed.

(** C8: when the document has no toggle or no menu container, init
    completes and only records what it found in the two handles: it
    registers no listener, writes no attribute and no class, arms no timer
    and leaves isOpen alone.  On a page where nothing else was registered,
    no event then reaches an operation of the controller: dispatching any
    event only resets the flags of that event, and time passing fires
    nothing. *)
Theorem init_without_elements_does_nothing (w : World) :
  found w CONFIG.selectors.toggle = None ∨ found w CONFIG.selectors.nav = None →
  let w' := exec navigation.init w in
  completes navigation.init w = true ∧
  listeners w' = listeners w ∧ elems w' = elems w ∧ timers w' = timers w ∧
  isOpen w' = isOpen w ∧ activeElement w' = activeElement w ∧
  trace w' = trace w ∧
  (listeners w = [] → ∀ e, dispatchEvent e w' = (Ok tt, fresh_event w')) ∧
  (timers w = [] → ∀ t, advance_to t w' = set_now (Z.max (now w') t) w').
Proof.
  intros H. cbn zeta. unfold completes, exec. rewrite (init_not_found_run w H).
  cbn [fst snd]. repeat split.
  - intros Hl e. by apply dispatch_no_listeners.
  - intros Ht t. apply advance_no_timers. exact Ht.
Qed.

Lemma init_without_elements_does_nothing_witness :
  let w' := exec navigation.init page_without_nav in
  completes navigation.init page_without_nav = true ∧
  listeners w' = [] ∧ elems w' = page_elems ∧ timers w' = [] ∧ isOpen w' = false ∧
  dispatchEvent (mkEvent Click (OnNode 1) EmptyString) w' = (Ok tt, fresh_event w') ∧
  advance_to 1000 w' = set_now 1000 w'.
Proof.
  destruct (init_without_elements_does_nothing page_without_nav
              (or_intror eq_refl)) as (H1 & H2 & H3 & H4 & H5 & _ & _ & H8 & H9).
  split; [exact H1|]. split; [exact H2|]. split; [exact H3|].
  split; [exact H4|]. split; [exact H5|]. split.
  - apply H8. reflexivity.
  - apply (H9 eq_refl 1000%Z).
Defined.

(** ** The lazy loader *)

Lemma loadImage_run img w :
  lazyLoad.loadImage img w =
  match attribute w img "data-src" with
  | Some s =>
      if bool_decide (s = EmptyString) then (Ok tt, w)
      else (Ok tt, upd img (el_add_class CONFIG.classes.loaded)
                     (upd img (el_remove_attr "data-src")
                        (upd img (el_set_attr "src" s) w)))
  | None => (Ok tt, w)
  end.
Proof.
  unfold lazyLoad.loadImage, bind, getAttribute, gets, attribute.
  destruct (attributes (element w img) !! "data-src") as [s|]; [|done].
  by destruct (bool_decide (s = EmptyString)).
Qed.

(** C10: loadImage changes nothing on an image without data-src; on an
    image with a non-empty data-src it sets src, removes data-src and adds
    the loaded class; and a second call right after any first call leaves
    the whole world, so the element's src, attributes and classes, as the
    first call left it. *)
Theorem loadImage_idempotent (img : node) (w : World) :
  (attribute w img "data-src" = None → lazyLoad.loadImage img w = (Ok tt, w)) ∧
  (∀ s, attribute w img "data-src" = Some s → s ≠ EmptyString →
     let w' := exec (lazyLoad.loadImage img) w in
     attribute w' img "data-src" = None ∧ attribute w' img "src" = Some s ∧
     has_class w' img CONFIG.classes.loaded = true) ∧
  lazyLoad.loadImage img (exec (lazyLoad.loadImage img) w)
  = (Ok tt, exec (lazyLoad.loadImage img) w).
Proof.
  split; [|split].
  - intros H. by rewrite loadImage_run, H.
  - intros s H Hs. cbn zeta. unfold exec. rewrite loadImage_run, H.
    rewrite bool_decide_eq_false_2 by done. cbn [snd]. repeat split.
    + rewrite attribute_upd_add, attribute_upd_delete. by rewrite decide_True.
    + rewrite attribute_upd_add, attribute_upd_delete.
      rewrite decide_False by (intros [_ ?]; done).
      by rewrite attribute_upd_set, decide_True.
    + rewrite has_class_upd_add. by rewrite bool_decide_eq_true_2.
  - unfold exec. rewrite (loadImage_run img w).
    destruct (attribute w img "data-src") as [s|] eqn:E.
    + destruct (bool_decide (s = EmptyString)) eqn:Es; cbn [snd].
      * by rewrite loadImage_run, E, Es.
      * rewrite loadImage_run.
        rewrite attribute_upd_add, attribute_upd_delete. by rewrite decide_True.
    + cbn [snd]. by rewrite loadImage_run, E.
Qed.

Lemma loadImage_idempotent_witness :
  let w' := exec (lazyLoad.loadImage 7) page_with_image in
  lazyLoad.loadImage 7 page = (Ok tt, page) ∧
  (attribute w' 7 "data-src" = None ∧ attribute w' 7 "src" = Some "photo.jpg" ∧
   has_class w' 7 CONFIG.classes.loaded = true) ∧
  lazyLoad.loadImage 7 w' = (Ok tt, w').
Proof.
  split; [|split].
  - apply (proj1 (loadImage_idempotent 7 page)). reflexivity.
  - apply (proj1 (proj2 (loadImage_idempotent 7 page_with_image)) "photo.jpg");
      [reflexivity | discriminate].
  - apply (proj2 (proj2 (loadImage_idempotent 7 page_with_image))).
Defined.

(** ** The deferred focus transfer *)

Lemma focus_trace n w : trace (exec (focus n) w) = trace w ++ [FocusCall n].
Proof. unfold focus, modify, exec. cbn [snd]. by destruct (can_focus _ _). Qed.

Lemma focus_active n w :
  activeElement (exec (focus n) w) =
  if can_focus w n then Some n else activeElement w.
Proof. unfold focus, modify, exec. cbn [snd]. by destruct (can_focus _ _). Qed.

(** C7, as the claim states it, fails: on the sample page openMenu arms the
    focus transfer for link 3; the link then leaves the document; when the
    timer fires 100 ms later the link is not in the document and focus is
    called on it all the same (nothing receives the focus). *)
Lemma focus_callback_does_not_recheck :
  timers stale_link_world = [mkTimer 1 100 (FocusLink 3)] ∧
  (3 ∉ document stale_link_world) ∧
  trace (advance_to 100 stale_link_world)
  = [Fired (mkTimer 1 100 (FocusLink 3)); FocusCall 3] ∧
  activeElement (advance_to 100 stale_link_world) = None.
Proof.
  split; [reflexivity|]. split; [|split; reflexivity].
  apply (bool_decide_unpack _). vm_compute. exact I.
Qed.

(** C7, amended: openMenu looks for the first link when it is called, after
    it has written the marks, and arms the focus transfer only if it finds
    one, 100 ms ahead and for that element; the callback, whenever it runs
    and whether or not the element is still in the document, calls focus on
    the element captured then, without looking again. *)
Theorem focus_transfer_checks_when_scheduling (w : World) (t n : node) :
  toggle w = Some t → nav w = Some n →
  timers (exec navigation.openMenu w) =
    (timers w ++
     match first_link (mark_open t n w) n with
     | Some l => [mkTimer (nextTimer w) (now w + 100) (FocusLink l)]
     | None => []
     end) ∧
  (∀ l w', run_callback (FocusLink l) w' = focus l w' ∧
           trace (exec (run_callback (FocusLink l)) w') = trace w' ++ [FocusCall l]).
Proof.
  intros Ht Hn. split.
  - unfold exec. rewrite (openMenu_run w t n Ht Hn). cbn [snd].
    unfold schedule_focus. destruct (first_link _ _); [done|].
    by rewrite app_nil_r.
  - intros l w'. split; [done|]. apply focus_trace.
Qed.

Lemma focus_transfer_checks_when_scheduling_witness :
  timers (exec navigation.openMenu ready_page) = [mkTimer 1 100 (FocusLink 3)] ∧
  trace (exec (run_callback (FocusLink 3)) stale_link_world) = [FocusCall 3].
Proof.
  destruct (focus_transfer_checks_when_scheduling ready_page 1 2 eq_refl eq_refl)
    as [H1 H2].
  split; [exact H1 | exact (proj2 (H2 3 stale_link_world))].
Defined.

(** ** The timer queue *)

Lemma next_due_Some limit ts t :
  next_due limit ts = Some t → t ∈ ts ∧ (due t ≤ limit)%Z.
Proof.
  induction ts as [|u ts IH]; cbn [next_due]; [done|].
  destruct (due u <=? limit)%Z eqn:Hu.
  - apply Z.leb_le in Hu.
    destruct (next_due limit ts) as [v|].
    + destruct (sooner u v); intros [= <-].
      * split; [left | done].
      * destruct IH as [? ?]; [done|]. split; [by right | done].
    + intros [= <-]. split; [left | done].
  - intros H. destruct (IH H) as [? ?]. split; [by right | done].
Qed.

Lemma next_due_None limit ts :
  next_due limit ts = None → Forall (λ x, (limit < due x)%Z) ts.
Proof.
  induction ts as [|u ts IH]; cbn [next_due]; [constructor|].
  destruct (due u <=? limit)%Z eqn:Hu.
  - destruct (next_due limit ts) as [v|]; [by destruct (sooner u v)|done].
  - intros H. apply Z.leb_gt in Hu. constructor; [done | by apply IH].
Qed.

Lemma remove_timer_length t ts :
  t ∈ ts → S (length (remove_timer t ts)) = length ts.
Proof.
  induction ts as [|u ts IH]; [by intros ?%elem_of_nil|].
  intros Hin. cbn [remove_timer]. case_bool_decide as Hu; [done|].
  cbn [length]. f_equal. apply IH.
  apply elem_of_cons in Hin as [-> | ?]; done.
Qed.

Lemma remove_timer_other t ts :
  is_later t = false →
  List.filter is_later (remove_timer t ts) = List.filter is_later ts.
Proof.
  intros Ht. induction ts as [|u ts IH]; [done|].
  cbn [remove_timer]. case_bool_decide as Hu.
  - subst u. cbn [List.filter]. by rewrite Ht.
  - cbn [List.filter]. by rewrite IH.
Qed.

Lemma remove_timer_later t ts :
  is_later t = true →
  List.filter is_later (remove_timer t ts) = remove_timer t (List.filter is_later ts).
Proof.
  intros Ht. induction ts as [|u ts IH]; [done|].
  cbn [remove_timer]. case_bool_decide as Hu.
  - subst u. cbn [List.filter]. rewrite Ht. cbn [remove_timer].
    by rewrite bool_decide_eq_true_2.
  - cbn [List.filter]. destruct (is_later u); [|done].
    cbn [remove_timer]. rewrite bool_decide_eq_false_2 by done. by rewrite IH.
Qed.

Lemma pending_checks_elem x w : x ∈ pending_checks w ↔ x ∈ timers w ∧ is_later x = true.
Proof. unfold pending_checks. by rewrite !list_elem_of_In, filter_In. Qed.


(** ** Firing a timer *)

Lemma fire_run t w :
  exec (fire t) w = exec (run_callback (callback t)) (dequeue t w).
Proof. reflexivity. Qed.

Lemma dequeue_fields t w :
  timers (dequeue t w) = remove_timer t (timers w) ∧
  trace (dequeue t w) = trace w ++ [Fired t] ∧
  now (dequeue t w) = Z.max (now w) (due t) ∧
  timeout (dequeue t w) = timeout w ∧ isOpen (dequeue t w) = isOpen w ∧
  innerWidth (dequeue t w) = innerWidth w.
Proof. done. Qed.

Lemma focus_fields n w :
  timers (exec (focus n) w) = timers w ∧ now (exec (focus n) w) = now w ∧
  timeout (exec (focus n) w) = timeout w ∧ isOpen (exec (focus n) w) = isOpen w ∧
  innerWidth (exec (focus n) w) = innerWidth w.
Proof. unfold focus, modify, exec. cbn [snd]. by destruct (can_focus _ _). Qed.

Lemma clearTimeout_fields o w :
  let w' := exec (clearTimeout o) w in
  timers w' =
    match o with
    | Some i => List.filter (λ t, negb (bool_decide (tid t = i))) (timers w)
    | None => timers w
    end ∧
  trace w' = trace w ∧ now w' = now w ∧ timeout w' = timeout w ∧
  isOpen w' = isOpen w ∧ innerWidth w' = innerWidth w.
Proof. by destruct o. Qed.

Lemma later_run f w :
  exec (utils.later f) w = exec f (exec (clearTimeout (timeout w)) w).
Proof.
  destruct w as [? ? ? ? ? ? ? ? tmo ? ? ? ? ? ? ?].
  by destruct tmo.
Qed.

(** The resize check writes isOpen and the mirrors, nothing of the queue;
    the menu stays open only on a mobile viewport. *)
Lemma resize_check_fields w :
  let w' := exec navigation.resize_check w in
  timers w' = timers w ∧ trace w' = trace w ∧ now w' = now w ∧
  timeout w' = timeout w ∧ innerWidth w' = innerWidth w ∧
  isOpen w' = isOpen w && (innerWidth w <? 768)%Z.
Proof.
  destruct w as [? ? ? ? iw tg nv io ? ? ? ? ? ? ? ?].
  unfold navigation.resize_check, and_then, utils.isMobile, exec, bind, gets, ret,
    CONFIG.breakpoints.mobile.
  cbn. destruct (iw <? 768)%Z; cbn; [by rewrite andb_true_r|].
  destruct io; [|done]. by destruct tg, nv.
Qed.

Lemma filter_within_nil {A} (f g : A → bool) (l : list A) :
  List.filter f l = [] → List.filter f (List.filter g l) = [].
Proof.
  induction l as [|x l IH]; [done|]. cbn [List.filter].
  destruct (f x) eqn:Hf; [done|]. intros H.
  destruct (g x); cbn [List.filter]; rewrite ?Hf; by apply IH.
Qed.

(** A focus timer leaves the resize listener's view as it was. *)
Lemma fire_focus_view t l w :
  callback t = FocusLink l → t ∈ timers w →
  sched_view (exec (fire t) w) = sched_view w ∧
  S (length (timers (exec (fire t) w))) = length (timers w) ∧
  now (exec (fire t) w) = Z.max (now w) (due t).
Proof.
  intros Hc Hin. rewrite fire_run, Hc. cbn [run_callback].
  destruct (focus_fields l (dequeue t w)) as (F1 & F2 & F3 & F4 & F5).
  destruct (dequeue_fields t w) as (D1 & D2 & D3 & D4 & D5 & D6).
  assert (Hl : is_later t = false).
  { unfold is_later. rewrite Hc. done. }
  split; [|split].
  - unfold sched_view, pending_checks, evaluations.
    rewrite F1, F3, F4, F5, D1, D4, D5, D6, focus_trace, D2.
    rewrite (remove_timer_other t _ Hl), !List.filter_app. cbn. rewrite Hl. cbn.
    by rewrite !app_nil_r.
  - rewrite F1, D1. by apply remove_timer_length.
  - by rewrite F2, D3.
Qed.

(** The resize timer runs the check once and leaves no check pending. *)
Lemma fire_later_view t w :
  callback t = Later → pending_checks w = [t] →
  let w' := exec (fire t) w in
  pending_checks w' = [] ∧ isOpen w' = isOpen w && (innerWidth w <? 768)%Z ∧
  innerWidth w' = innerWidth w ∧ evaluations w' = S (evaluations w) ∧
  length (timers w') < length (timers w) ∧
  now w' = Z.max (now w) (due t).
Proof.
  intros Hc Hp. cbn zeta. rewrite fire_run, Hc. cbn [run_callback].
  rewrite later_run.
  destruct (dequeue_fields t w) as (D1 & D2 & D3 & D4 & D5 & D6).
  set (w0 := dequeue t w) in *.
  destruct (clearTimeout_fields (timeout w0) w0) as (C1 & C2 & C3 & C4 & C5 & C6).
  set (w1 := exec (clearTimeout (timeout w0)) w0) in *.
  destruct (resize_check_fields w1) as (R1 & R2 & R3 & R4 & R5 & R6).
  assert (Hl : is_later t = true).
  { unfold is_later. rewrite Hc. done. }
  assert (Hin : t ∈ timers w).
  { apply (pending_checks_elem t w). rewrite Hp. left. }
  assert (P0 : pending_checks w0 = []).
  { unfold pending_checks. rewrite D1, (remove_timer_later t _ Hl).
    fold (pending_checks w). rewrite Hp. cbn. by rewrite bool_decide_eq_true_2. }
  assert (L1 : length (timers w1) ≤ length (timers w0)).
  { rewrite C1. destruct (timeout w0); [apply List.filter_length_le | done]. }
  assert (P1 : pending_checks w1 = []).
  { unfold pending_checks. rewrite C1. destruct (timeout w0); [|exact P0].
    by apply filter_within_nil. }
  repeat split.
  - unfold pending_checks. rewrite R1. exact P1.
  - by rewrite R6, C5, C6, D5, D6.
  - by rewrite R5, C6, D6.
  - unfold evaluations. rewrite R2, C2, D2, List.filter_app, length_app.
    cbn. rewrite Hl. cbn. lia.
  - rewrite R1. pose proof (remove_timer_length t _ Hin) as Hlen.
    rewrite <- D1 in Hlen. lia.
  - by rewrite R3, C3, D3.
Qed.

(** ** Letting the clock run *)

(** While no resize check is due, the clock runs without one: only focus
    timers fire. *)
Lemma run_timers_quiet fuel limit w :
  Forall (λ x, (limit < due x)%Z) (pending_checks w) →
  sched_view (run_timers fuel limit w) = sched_view w ∧
  (now w ≤ now (run_timers fuel limit w) ≤ Z.max (now w) limit)%Z.
Proof.
  revert w. induction fuel as [|fuel IH]; intros w Hq; cbn [run_timers].
  - split; [done | lia].
  - destruct (next_due limit (timers w)) as [t|] eqn:E; [|split; [done | lia]].
    destruct (next_due_Some _ _ _ E) as [Hin Hdue].
    destruct (callback t) as [l|] eqn:Hc.
    + destruct (fire_focus_view t l w Hc Hin) as (Hv & _ & Hn).
      destruct (IH (exec (fire t) w)) as [Hv' Hn'].
      { assert (Hp : pending_checks (exec (fire t) w) = pending_checks w)
          by (unfold sched_view in Hv; congruence).
        by rewrite Hp. }
      split; [congruence | lia].
    + exfalso. rewrite Forall_forall in Hq.
      assert (limit < due t)%Z; [|lia].
      apply Hq, pending_checks_elem. split; [done|].
      unfold is_later. by rewrite Hc.
Qed.

(** Fuel: one round per pending timer is enough. *)
Lemma run_timers_done fuel limit w :
  length (timers w) ≤ fuel →
  next_due limit (timers (run_timers fuel limit w)) = None.
Proof.
  revert w. induction fuel as [|fuel IH]; intros w Hl; cbn [run_timers].
  - destruct (timers w); [done | cbn in Hl; lia].
  - destruct (next_due limit (timers w)) as [t|] eqn:E; [|done].
    destruct (next_due_Some _ _ _ E) as [Hin _].
    apply IH. rewrite fire_run.
    pose proof (remove_timer_length t _ Hin) as Hlen.
    destruct (dequeue_fields t w) as (D1 & _).
    destruct (callback t) as [l|]; cbn [run_callback].
    + destruct (focus_fields l (dequeue t w)) as (F1 & _). rewrite F1, D1. lia.
    + rewrite later_run.
      destruct (resize_check_fields
                  (exec (clearTimeout (timeout (dequeue t w))) (dequeue t w)))
        as (R1 & _).
      destruct (clearTimeout_fields (timeout (dequeue t w)) (dequeue t w)) as (C1 & _).
      rewrite R1, C1.
      assert (length (match timeout (dequeue t w) with
                      | Some i => List.filter (λ t0, negb (bool_decide (tid t0 = i)))
                                    (timers (dequeue t w))
                      | None => timers (dequeue t w)
                      end) ≤ length (timers (dequeue t w))); [|rewrite D1 in *; lia].
      destruct (timeout (dequeue t w)); [apply List.filter_length_le | done].
Qed.

(** When the one pending resize check is due, the clock runs it exactly
    once. *)
Lemma run_timers_check fuel limit w tL :
  pending_checks w = [tL] → (due tL ≤ limit)%Z → length (timers w) ≤ fuel →
  let w' := run_timers fuel limit w in
  pending_checks w' = [] ∧ evaluations w' = S (evaluations w) ∧
  isOpen w' = isOpen w && (innerWidth w <? 768)%Z ∧
  innerWidth w' = innerWidth w.
Proof.
  revert w. induction fuel as [|fuel IH]; intros w Hp Hdue Hl; cbn zeta.
  - exfalso. assert (Hin : tL ∈ pending_checks w) by (rewrite Hp; left).
    apply pending_checks_elem in Hin as [Hin _].
    destruct (timers w); [by apply elem_of_nil in Hin | cbn in Hl; lia].
  - cbn [run_timers].
    assert (HL : tL ∈ timers w ∧ is_later tL = true).
    { apply pending_checks_elem. rewrite Hp. left. }
    destruct HL as [HLin HLl].
    destruct (next_due limit (timers w)) as [t|] eqn:E.
    + destruct (next_due_Some _ _ _ E) as [Hin Hd].
      destruct (callback t) as [l|] eqn:Hc.
      * destruct (fire_focus_view t l w Hc Hin) as (Hv & Hlen & _).
        unfold sched_view in Hv.
        destruct (IH (exec (fire t) w)) as (I1 & I2 & I3 & I4);
          [congruence | done | lia |].
        repeat split; [done | congruence | congruence | congruence].
      * assert (t = tL) as ->.
        { assert (Ht : t ∈ pending_checks w).
          { apply pending_checks_elem. split; [done|]. unfold is_later. by rewrite Hc. }
          rewrite Hp in Ht. by apply list_elem_of_singleton in Ht. }
        destruct (fire_later_view tL w Hc Hp) as (V1 & V2 & V3 & V4 & _).
        destruct (run_timers_quiet fuel limit (exec (fire tL) w)) as [Hv _].
        { rewrite V1. constructor. }
        unfold sched_view in Hv.
        repeat split; [congruence | congruence | congruence | congruence].
    + exfalso. apply next_due_None in E. rewrite Forall_forall in E.
      specialize (E tL HLin). cbn in E. lia.
Qed.

Lemma advance_quiet t w :
  Forall (λ x, (t < due x)%Z) (pending_checks w) → (now w ≤ t)%Z →
  sched_view (advance_to t w) = sched_view w ∧ now (advance_to t w) = t.
Proof.
  intros Hq Hn. unfold advance_to.
  destruct (run_timers_quiet (length (timers w)) t w Hq) as [Hv Hb].
  split; [exact Hv | cbn; lia].
Qed.

(** ** The debounced listener *)

Lemma filter_none {A} (f : A → bool) (l : list A) :
  (∀ x, In x l → f x = false) → List.filter f l = [].
Proof.
  induction l as [|x l IH]; [done|]. intros H. cbn [List.filter].
  rewrite (H x) by (by left). apply IH. intros y Hy. apply H. by right.
Qed.

(** A resize event clears the pending check and arms a new one, 150 ms
    ahead. *)
Lemma on_window_resize_arms e w :
  checks_named w →
  let w' := exec (navigation.on_window_resize e) w in
  armed w' (now w) ∧ isOpen w' = isOpen w ∧ innerWidth w' = innerWidth w ∧
  evaluations w' = evaluations w.
Proof.
  intros Hnamed. cbn zeta.
  assert (Hclear : pending_checks (exec (clearTimeout (timeout w)) w) = []).
  { destruct (clearTimeout_fields (timeout w) w) as (C1 & _).
    unfold pending_checks. rewrite C1.
    destruct (timeout w) as [i|] eqn:Ht.
    - apply filter_none. intros x Hx.
      apply List.filter_In in Hx as [Hx Hi].
      destruct (is_later x) eqn:Hl; [|done]. exfalso.
      assert (Hxp : x ∈ pending_checks w).
      { apply pending_checks_elem. split; [by apply list_elem_of_In | done]. }
      specialize (Hnamed x Hxp). rewrite Ht in Hnamed.
      injection Hnamed as ->. by rewrite bool_decide_eq_true_2 in Hi.
    - apply filter_none. intros x Hx.
      destruct (is_later x) eqn:Hl; [|done]. exfalso.
      assert (Hxp : x ∈ pending_checks w).
      { apply pending_checks_elem. split; [by apply list_elem_of_In | done]. }
      specialize (Hnamed x Hxp). by rewrite Ht in Hnamed. }
  destruct (clearTimeout_fields (timeout w) w) as (_ & C2 & C3 & _ & C5 & C6).
  set (w0 := exec (clearTimeout (timeout w)) w) in *.
  assert (E : exec (navigation.on_window_resize e) w
              = set_timeout (Some (nextTimer w0)) (arm Later 150 w0)).
  { unfold w0. destruct w as [? ? ? ? ? ? ? ? tmo ? ? ? ? ? ? ?]. by destruct tmo. }
  rewrite E. repeat split; [|done..|].
  - exists (nextTimer w0). repeat split; [|done].
    unfold pending_checks. cbn. rewrite List.filter_app.
    fold (pending_checks w0). rewrite Hclear. cbn. by rewrite C3.
  - unfold evaluations.
    change (trace (set_timeout (Some (nextTimer w0)) (arm Later 150 w0)))
      with (trace w0).
    by rewrite C2.
Qed.

Lemma armed_next w t t' :
  armed w t → (t ≤ t' < t + 150)%Z →
  checks_named w ∧ Forall (λ x, (t' < due x)%Z) (pending_checks w) ∧ (now w ≤ t')%Z.
Proof.
  intros (id & Hp & Ht & Hn) Hr. split; [|split].
  - intros x Hx. rewrite Hp in Hx. apply list_elem_of_singleton in Hx as ->. done.
  - rewrite Hp. repeat constructor. cbn. lia.
  - lia.
Qed.

Lemma quiet_next w t :
  pending_checks w = [] →
  checks_named w ∧ Forall (λ x, (t < due x)%Z) (pending_checks w).
Proof.
  intros Hp. split.
  - intros x Hx. rewrite Hp in Hx. by apply elem_of_nil in Hx.
  - rewrite Hp. constructor.
Qed.

(** One resize event of a burst: the check pending from the event before is
    not yet due, so the clock does not run it, and the listener replaces it. *)
Lemma resize_at_step t width w :
  checks_named w → Forall (λ x, (t < due x)%Z) (pending_checks w) → (now w ≤ t)%Z →
  armed (resize_at t width w) t ∧ isOpen (resize_at t width w) = isOpen w ∧
  innerWidth (resize_at t width w) = width ∧
  evaluations (resize_at t width w) = evaluations w.
Proof.
  intros Hnamed Hq Hn. unfold resize_at.
  destruct (advance_quiet t w Hq Hn) as [Hv Hnow]. unfold sched_view in Hv.
  injection Hv as V1 V2 V3 V4 V5.
  set (w2 := set_innerWidth width (advance_to t w)).
  assert (Hp2 : pending_checks w2 = pending_checks w) by exact V1.
  assert (Ht2 : timeout w2 = timeout w) by exact V2.
  assert (Hnamed2 : checks_named w2).
  { intros x Hx. rewrite Hp2 in Hx. rewrite Ht2. by apply Hnamed. }
  destruct (on_window_resize_arms (mkEvent Resize OnWindow EmptyString) w2 Hnamed2)
    as (Ha & Ho & Hw & He).
  change (now w2) with (now (advance_to t w)) in Ha. rewrite Hnow in Ha.
  split; [exact Ha|]. split; [|split].
  - rewrite Ho. exact V3.
  - by rewrite Hw.
  - rewrite He. exact V5.
Qed.

Lemma last_cons_default {A} (a d : A) (l : list A) :
  List.last (a :: l) d = List.last l a.
Proof.
  revert a d. induction l as [|b l IH]; intros a d; [done|].
  change (List.last (a :: b :: l) d) with (List.last (b :: l) d).
  by rewrite !IH.
Qed.

(** Through the rest of a burst the check stays armed, for 150 ms after the
    latest event, and never runs. *)
Lemma burst_keeps_armed events w t width :
  armed w t → innerWidth w = width → rapid t events →
  armed (burst events w) (last_time t width events) ∧
  isOpen (burst events w) = isOpen w ∧
  innerWidth (burst events w) = last_width t width events ∧
  evaluations (burst events w) = evaluations w.
Proof.
  revert w t width.
  induction events as [|[t' width'] events IH]; intros w t width Ha Hw Hr.
  - by cbn.
  - cbn [burst]. destruct Hr as [Hr1 Hr2].
    destruct (armed_next w t t' Ha Hr1) as (N1 & N2 & N3).
    destruct (resize_at_step t' width' w N1 N2 N3) as (S1 & S2 & S3 & S4).
    destruct (IH (resize_at t' width' w) t' width' S1 S3 Hr2) as (I1 & I2 & I3 & I4).
    unfold last_time, last_width in *. rewrite last_cons_default.
    repeat split; congruence.
Qed.

(** C6: a burst of resize events, each less than 150 ms after the one
    before, followed by 150 ms or more without one.  After the burst exactly
    one resize check is pending, armed 150 ms after the last event (every
    event cleared the check pending before it), and none has run; once the
    quiet period has passed the check has run exactly once and nothing due
    is left.  That one check closes the menu exactly when the menu is open
    and the last width is 768 or more: isOpen ends as it was, and-ed with
    the last width being below 768. *)
Theorem resize_burst_evaluates_once (w : World) (t1 width1 : Z)
    (events : list (Z * Z)) (T : Z) :
  pending_checks w = [] → (now w ≤ t1)%Z → rapid t1 events →
  (last_time t1 width1 events + 150 ≤ T)%Z →
  let wb := burst ((t1, width1) :: events) w in
  let w' := advance_to T wb in
  armed wb (last_time t1 width1 events) ∧
  evaluations wb = evaluations w ∧
  evaluations w' = S (evaluations w) ∧
  pending_checks w' = [] ∧ next_due T (timers w') = None ∧
  isOpen w' = isOpen w && (last_width t1 width1 events <? 768)%Z.
Proof.
  intros Hp Hn Hr HT. cbn zeta. cbn [burst].
  destruct (quiet_next w t1 Hp) as [Q1 Q2].
  destruct (resize_at_step t1 width1 w Q1 Q2 Hn) as (S1 & S2 & S3 & S4).
  destruct (burst_keeps_armed events (resize_at t1 width1 w) t1 width1 S1 S3 Hr)
    as (B1 & B2 & B3 & B4).
  set (wb := burst events (resize_at t1 width1 w)) in *.
  destruct B1 as (id & Bp & Bt & Bn).
  destruct (run_timers_check (length (timers wb)) T wb _ Bp) as (R1 & R2 & R3 & R4);
    [cbn; lia | done |].
  split; [by exists id|]. split; [congruence|].
  unfold advance_to.
  split; [|split; [|split]].
  - transitivity (S (evaluations wb)); [exact R2 | congruence].
  - exact R1.
  - apply (run_timers_done (length (timers wb)) T wb). done.
  - transitivity (isOpen wb && (innerWidth wb <? 768)%Z); [exact R3 | congruence].
Qed.

Lemma resize_burst_evaluates_once_witness :
  let w := exec navigation.openMenu ready_page in
  let wb := burst [(10, 700); (100, 800); (240, 900)]%Z w in
  let w' := advance_to 400 wb in
  armed wb 240 ∧ evaluations wb = 0 ∧ evaluations w' = 1 ∧
  pending_checks w' = [] ∧ next_due 400 (timers w') = None ∧ isOpen w' = false.
Proof.
  apply (resize_burst_evaluates_once (exec navigation.openMenu ready_page)
           10 700 [(100, 800); (240, 900)]%Z 400).
  - reflexivity.
  - vm_compute. discriminate.
  - cbn. lia.
  - vm_compute. discriminate.
Defined.

(** ** Setup with both elements *)

Lemma for_each_registers {A} (f : A → nat → M unit) (g : A → nat → Listener)
    (l : list A) (i : nat) (w : World) :
  (∀ x j w', f x j w' = (Ok tt, set_listeners (listeners w' ++ [g x j]) w')) →
  for_each_from i l f w
  = (Ok tt, set_listeners (listeners w ++ registered_from g i l) w).
Proof.
  intros Hf. revert i w. induction l as [|x l IH]; intros i w.
  - cbn. by rewrite app_nil_r.
  - cbn [for_each_from registered_from]. unfold bind. rewrite Hf, IH.
    cbn. by rewrite <- app_assoc.
Qed.

Lemma bindEvents_run w t n :
  toggle w = Some t → nav w = Some n →
  ∃ L, navigation.bindEvents w = (Ok tt, set_listeners (listeners w ++ L) w).
Proof.
  intros Ht Hn. destruct w as [els doc b ae iw tg nv io tmo nw tms nxt ls ps dp tr].
  cbn in Ht, Hn. subst.
  set (w := mkWorld els doc b ae iw (Some t) (Some n) io tmo nw tms nxt ls ps dp tr).
  set (w1 := set_listeners (ls ++ [mkListener (OnNode t) Click ToggleClick]) w).
  set (links := List.filter (matches w1 CONFIG.selectors.navLinks (Some n)) doc).
  set (g := λ (link : node) (_ : nat), mkListener (OnNode link) Click LinkClick).
  exists ([mkListener (OnNode t) Click ToggleClick] ++ registered_from g 0 links ++
          [mkListener OnDocument Click DocumentClick;
           mkListener OnDocument Keydown DocumentKeydown;
           mkListener OnWindow Resize WindowResize]).
  change (navigation.bindEvents w) with
    (bind (for_each_from 0 links
             (λ link _, utils.on (Some (OnNode link)) Click LinkClick))
          (λ _, utils.on (Some OnDocument) Click DocumentClick;;
                utils.on (Some OnDocument) Keydown DocumentKeydown;;
                utils.on (Some OnWindow) Resize WindowResize) w1).
  unfold bind at 1. rewrite (for_each_registers _ g) by done.
  unfold utils.on, addEventListener, modify, bind. cbn.
  rewrite <- !app_assoc. done.
Qed.

Lemma setupAccessibility_run w t n :
  toggle w = Some t → nav w = Some n →
  ∃ L, navigation.setupAccessibility w
       = (Ok tt, set_listeners (listeners w ++ L) (announce_closed t n w)).
Proof.
  intros Ht Hn. destruct w as [els doc b ae iw tg nv io tmo nw tms nxt ls ps dp tr].
  cbn in Ht, Hn. subst.
  set (w := mkWorld els doc b ae iw (Some t) (Some n) io tmo nw tms nxt ls ps dp tr).
  set (w1 := announce_closed t n w).
  set (links := List.filter (matches w1 CONFIG.selectors.navLinks (Some n)) doc).
  set (g := λ (link : node) (index : nat),
              mkListener (OnNode link) Keydown (LinkKeydown links index)).
  exists (registered_from g 0 links).
  change (navigation.setupAccessibility w) with
    (for_each_from 0 links
       (λ link index, utils.on (Some (OnNode link)) Keydown (LinkKeydown links index))
       w1).
  by rewrite (for_each_registers _ g).
Qed.

(** When the document has both elements, init completes, stores them in the
    two handles, registers its listeners and announces a closed menu. *)
Lemma init_run w t n :
  found w CONFIG.selectors.toggle = Some t → found w CONFIG.selectors.nav = Some n →
  ∃ L, navigation.init w
       = (Ok tt, set_listeners (listeners w ++ L)
                   (announce_closed t n (set_nav (Some n) (set_toggle (Some t) w)))).
Proof.
  intros Ht Hn.
  set (w1 := set_nav (Some n) (set_toggle (Some t) w)).
  assert (E : navigation.init w
              = (navigation.bindEvents;; navigation.setupAccessibility) w1).
  { change (navigation.init w) with
      ((if negb (bool_decide (is_Some (found w CONFIG.selectors.toggle))) ||
           negb (bool_decide (is_Some (found w CONFIG.selectors.nav)))
        then ret tt
        else navigation.bindEvents;; navigation.setupAccessibility)
         (set_nav (found w CONFIG.selectors.nav)
            (set_toggle (found w CONFIG.selectors.toggle) w))).
    rewrite Ht, Hn. rewrite !bool_decide_eq_true_2 by eauto. done. }
  destruct (bindEvents_run w1 t n eq_refl eq_refl) as [L1 E1].
  destruct (setupAccessibility_run (set_listeners (listeners w1 ++ L1) w1) t n
              eq_refl eq_refl) as [L2 E2].
  exists (L1 ++ L2). rewrite E. unfold bind. rewrite E1, E2.
  f_equal. cbn. by rewrite <- app_assoc.
Qed.

(** After a setup that found both elements the handles are set; if the page
    came without the two marker classes and with isOpen false, the mirrors
    already agree with isOpen. *)
Lemma init_synced w t n :
  found w CONFIG.selectors.toggle = Some t → found w CONFIG.selectors.nav = Some n →
  toggle (exec navigation.init w) = Some t ∧ nav (exec navigation.init w) = Some n ∧
  (isOpen w = false → has_class w n CONFIG.classes.active = false →
   has_class w (body w) CONFIG.classes.menuOpen = false →
   synced (exec navigation.init w)).
Proof.
  intros Ht Hn. destruct (init_run w t n Ht Hn) as [L E].
  unfold exec. rewrite E. cbn [snd]. split; [done|]. split; [done|].
  intros Ho H1 H2. exists t, n. split; [done|]. split; [done|].
  change (isOpen (set_listeners _ _)) with (isOpen w). rewrite Ho.
  set (w1 := set_nav (Some n) (set_toggle (Some t) w)).
  assert (Hc : ∀ m c, has_class (set_listeners (listeners w ++ L) (announce_closed t n w1)) m c
                      = has_class w m c).
  { intros m c. rewrite (has_class_elems _ (announce_closed t n w1)) by done.
    unfold announce_closed. rewrite !has_class_upd_attr.
    by apply has_class_elems. }
  assert (Ha : ∀ m k, attribute (set_listeners (listeners w ++ L) (announce_closed t n w1)) m k
                      = attribute (announce_closed t n w1) m k).
  { intros m k. by apply attribute_elems. }
  rewrite !Hc, !Ha. unfold announce_closed. repeat split; try done.
  - rewrite attribute_upd_set, decide_False by (intros [_ ?]; done).
    by rewrite attribute_upd_set, decide_True.
  - by rewrite attribute_upd_set, decide_True.
Qed.

(** The invariant holds after every call that follows a setup which found
    both elements, whatever classes and attributes the page came with. *)
Lemma mirrors_agree_after_setup (calls : list Call) (w : World) (t n : node) :
  found w CONFIG.selectors.toggle = Some t → found w CONFIG.selectors.nav = Some n →
  Forall mirrors_agree (states_after calls (exec navigation.init w)).
Proof.
  intros Ht Hn. destruct (init_synced w t n Ht Hn) as (H1 & H2 & _).
  eapply Forall_impl; [apply states_after_synced; eauto|].
  apply synced_mirrors_agree.
Qed.

(** ** The script at work on the sample page *)

(** A click on the toggle opens the menu and arms the focus transfer; the
    document's listener, reached or not, finds the target inside the
    toggle. *)
Example click_on_toggle_opens :
  let w := exec (dispatchEvent (mkEvent Click (OnNode 1) EmptyString)) ready_page in
  isOpen w = true ∧ timers w = [mkTimer 1 100 (FocusLink 3)] ∧
  propagationStopped w = true ∧
  menu_state w = (true, Some (true, true, Some "true", Some "false")).
Proof. repeat split. Qed.

Example focus_arrives_after_100ms :
  let w := exec (dispatchEvent (mkEvent Click (OnNode 1) EmptyString)) ready_page in
  activeElement (advance_to 99 w) = None ∧ activeElement (advance_to 100 w) = Some 3.
Proof. split; reflexivity. Qed.

(** With the menu open: a click on the content closes it, a click on the
    container itself does not, a click on a link closes it on the 375 wide
    viewport through the link's own listener. *)
Example clicks_on_the_open_menu :
  let w := exec navigation.openMenu ready_page in
  isOpen (exec (dispatchEvent (mkEvent Click (OnNode 6) EmptyString)) w) = false ∧
  isOpen (exec (dispatchEvent (mkEvent Click (OnNode 2) EmptyString)) w) = true ∧
  isOpen (exec (dispatchEvent (mkEvent Click (OnNode 4) EmptyString)) w) = false ∧
  isOpen (exec (dispatchEvent (mkEvent Click (OnNode 4) EmptyString))
            (set_innerWidth 1024 w)) = true.
Proof. repeat split. Qed.

(** Arrow keys walk the links in a circle; Escape closes and gives the focus
    back to the toggle. *)
Example keys_on_the_open_menu :
  let w := advance_to 100 (exec navigation.openMenu ready_page) in
  let key k n := exec (dispatchEvent (mkEvent Keydown (OnNode n) k)) in
  activeElement (key "ArrowDown" 3 w) = Some 4 ∧
  activeElement (key "ArrowRight" 5 w) = Some 3 ∧
  activeElement (key "ArrowUp" 3 w) = Some 5 ∧
  activeElement (key "ArrowLeft" 4 w) = Some 3 ∧
  isOpen (key "ArrowDown" 5 w) = true ∧
  isOpen (key "Escape" 4 w) = false ∧ activeElement (key "Escape" 4 w) = Some 1.
Proof. repeat split. Qed.

(** Three resize events through the window's listener, the last one to a
    desktop width: the menu closes once, 150 ms after the last event. *)
Example resize_to_desktop_closes :
  let w0 := exec navigation.openMenu ready_page in
  let w1 := exec (resize_to 700) (advance_to 10 w0) in
  let w2 := exec (resize_to 800) (advance_to 100 w1) in
  let w3 := exec (resize_to 900) (advance_to 240 w2) in
  isOpen (advance_to 389 w3) = true ∧ evaluations (advance_to 389 w3) = 0 ∧
  isOpen (advance_to 390 w3) = false ∧ evaluations (advance_to 390 w3) = 1 ∧
  evaluations (advance_to 5000 w3) = 1.
Proof. repeat split. Qed.

(** * Further properties of the script *)

(** ** Who opens the menu *)

Lemma closeMenu_isOpen w : isOpen (exec navigation.closeMenu w) = false.
Proof. by destruct w as [? ? ? ? ? [] [] ? ? ? ? ? ? ? ? ?]. Qed.

Lemma executedFunction_same_menu wait w :
  same_menu w (exec (utils.executedFunction wait) w).
Proof.
  destruct w as [? ? ? ? ? ? ? ? tmo ? ? ? ? ? ? ?]. by destruct tmo.
Qed.

(** Of all the listeners and timer callbacks of the script only the click
    listener of the toggle can open the menu: with isOpen false, every other
    listener and both timer callbacks leave isOpen false. *)
Theorem only_the_toggle_opens (w : World) :
  isOpen w = false →
  (∀ h e, h ≠ ToggleClick → isOpen (exec (handle h e) w) = false) ∧
  (∀ cb, isOpen (exec (run_callback cb) w) = false).
Proof.
  intros Ho. split.
  - intros h e Hh. destruct h as [| | | | |links index]; cbn [handle]; [done|..].
    + unfold exec. rewrite on_link_click_run.
      destruct (_ <? _)%Z; [apply closeMenu_isOpen | exact Ho].
    + destruct w as [? ? ? ? ? ? ? io ? ? ? ? ? ? ? ?]. cbn in Ho. by subst io.
    + destruct w as [? ? ? ? ? ? ? io ? ? ? ? ? ? ? ?]. cbn in Ho. subst io.
      unfold navigation.on_document_keydown, and_then, exec, bind, ret, gets.
      by destruct (bool_decide _).
    + destruct (executedFunction_same_menu 150 w) as (_ & H & _).
      unfold navigation.on_window_resize. by rewrite H.
    + destruct (on_link_keydown_frame links index e w) as (_ & H & _).
      by rewrite H.
  - intros [l|]; cbn [run_callback].
    + destruct (focus_fields l w) as (_ & _ & _ & H & _). by rewrite H.
    + rewrite later_run.
      destruct (resize_check_fields (exec (clearTimeout (timeout w)) w))
        as (_ & _ & _ & _ & _ & H).
      destruct (clearTimeout_fields (timeout w) w) as (_ & _ & _ & _ & H' & _).
      by rewrite H, H', Ho.
Qed.

Lemma only_the_toggle_opens_witness :
  isOpen (exec (handle LinkClick (mkEvent Click (OnNode 4) EmptyString)) ready_page) = false ∧
  isOpen (exec (run_callback Later) ready_page) = false.
Proof.
  destruct (only_the_toggle_opens ready_page eq_refl) as [H1 H2].
  split; [apply H1; discriminate | apply H2].
Defined.

(** ** The invariant along every run *)

Lemma same_menu_refl w : same_menu w w.
Proof. done. Qed.

Lemma same_menu_trans w1 w2 w3 : same_menu w1 w2 → same_menu w2 w3 → same_menu w1 w3.
Proof. unfold same_menu. intros (? & ? & ? & ? & ?) (? & ? & ? & ? & ?). repeat split; congruence. Qed.

Lemma synced_same_menu w w' : same_menu w w' → synced w → synced w'.
Proof.
  intros (E & Ho & Ht & Hn & Hb) (t & n & H1 & H2 & H3 & H4 & H5 & H6).
  exists t, n. rewrite Ho, Ht, Hn, Hb.
  rewrite !(has_class_elems w' w _ _ E), !(attribute_elems w' w _ _ E).
  done.
Qed.

Lemma focus_same_menu n w : same_menu w (exec (focus n) w).
Proof. unfold focus, modify, exec. cbn [snd]. by destruct (can_focus _ _). Qed.

Lemma clearTimeout_same_menu o w : same_menu w (exec (clearTimeout o) w).
Proof. by destruct o. Qed.

Lemma resize_check_synced w : synced w → synced (exec navigation.resize_check w).
Proof.
  intros Hs. destruct (synced_handles w Hs) as [[t Ht] [n Hn]].
  assert (E : exec navigation.resize_check w = exec navigation.closeMenu w ∨
              exec navigation.resize_check w = w).
  { destruct w as [? ? ? ? iw ? ? io ? ? ? ? ? ? ? ?].
    unfold navigation.resize_check, and_then, utils.isMobile, exec, bind, gets, ret.
    cbn. destruct (iw <? _)%Z; cbn; [by right|].
    destruct io; [by left | by right]. }
  destruct E as [-> | ->]; [apply (closeMenu_synced w t n Ht Hn) | exact Hs].
Qed.

(** Every listener keeps the mirrors in step with isOpen. *)
Lemma handle_synced h e w : synced w → synced (exec (handle h e) w).
Proof.
  intros Hs. destruct (synced_handles w Hs) as [[t Ht] [n Hn]].
  destruct h as [| | | | |links index]; cbn [handle].
  - change (exec (navigation.on_toggle_click e) w)
      with (exec navigation.toggleMenu (set_propagationStopped true w)).
    apply (toggleMenu_synced (set_propagationStopped true w) t n Ht Hn).
  - unfold exec. rewrite on_link_click_run.
    destruct (_ <? _)%Z; [apply (closeMenu_synced w t n Ht Hn) | exact Hs].
  - unfold exec. rewrite (on_document_click_run w e t n Ht Hn).
    destruct (_ && _); [apply (closeMenu_synced w t n Ht Hn) | exact Hs].
  - unfold exec at 1. rewrite (on_document_keydown_run w e t n Ht Hn).
    destruct (_ && _); [|exact Hs]. cbn [snd].
    eapply synced_same_menu; [apply focus_same_menu|].
    apply (closeMenu_synced w t n Ht Hn).
  - eapply synced_same_menu; [apply executedFunction_same_menu | exact Hs].
  - eapply synced_same_menu; [|exact Hs].
    destruct (on_link_keydown_frame links index e w) as (? & ? & ? & ? & ?).
    by repeat split.
Qed.

(** Every timer callback keeps them in step too. *)
Lemma run_callback_synced cb w : synced w → synced (exec (run_callback cb) w).
Proof.
  intros Hs. destruct cb as [l|]; cbn [run_callback].
  - eapply synced_same_menu; [apply focus_same_menu | exact Hs].
  - rewrite later_run. apply resize_check_synced.
    eapply synced_same_menu; [apply clearTimeout_same_menu | exact Hs].
Qed.

Lemma invoke_runs ls e w :
  (invoke ls e w).1 = Ok tt ∧ (synced w → synced (exec (invoke ls e) w)).
Proof.
  revert w. induction ls as [|l ls IH]; intros w; [done|].
  cbn [invoke]. unfold bind, attempt, exec. cbn [fst snd].
  destruct (IH (handle (l_handler l) e w).2) as [I1 I2].
  split; [exact I1|]. intros Hs. apply I2. by apply handle_synced.
Qed.

Lemma propagate_synced path e w : synced w → synced (exec (propagate path e) w).
Proof.
  revert w. induction path as [|cur path IH]; intros w Hs; [done|].
  cbn [propagate]. unfold exec, bind, gets. cbn beta iota.
  destruct (invoke_runs (listeners_for cur (ev_type e) (listeners w)) e w) as [I1 I2].
  destruct (invoke _ e w) as [r w1] eqn:E. cbn in I1. subst r.
  assert (Hs1 : synced w1).
  { specialize (I2 Hs). unfold exec in I2. by rewrite E in I2. }
  assert (Hb : ∀ b : bool, synced ((if b then ret tt else propagate path e) w1).2).
  { intros []; [exact Hs1 | apply (IH w1 Hs1)]. }
  apply Hb.
Qed.

Lemma dispatchEvent_synced e w : synced w → synced (exec (dispatchEvent e) w).
Proof.
  intros Hs.
  change (exec (dispatchEvent e) w)
    with (exec (propagate (event_path (fresh_event w) e) e) (fresh_event w)).
  apply propagate_synced. eapply synced_same_menu; [|exact Hs]. done.
Qed.

Lemma run_timers_synced fuel limit w : synced w → synced (run_timers fuel limit w).
Proof.
  revert w. induction fuel as [|fuel IH]; intros w Hs; [done|].
  cbn [run_timers]. destruct (next_due limit (timers w)) as [t|]; [|exact Hs].
  apply IH. rewrite fire_run. apply run_callback_synced.
  eapply synced_same_menu; [|exact Hs]. done.
Qed.

Lemma react_synced w i : synced w → synced (react w i).
Proof.
  intros Hs. destruct i as [e|t|width|c]; cbn [react].
  - by apply dispatchEvent_synced.
  - unfold advance_to. eapply synced_same_menu; [|by apply run_timers_synced]. done.
  - change (exec (resize_to width) w)
      with (exec (dispatchEvent (mkEvent Resize OnWindow EmptyString)) (set_innerWidth width w)).
    apply dispatchEvent_synced. eapply synced_same_menu; [|exact Hs]. done.
  - destruct (synced_handles w Hs) as [Ht Hn]. apply (call_synced c w Ht Hn).
Qed.

(** Once the mirrors agree with isOpen they agree in every world the page
    can reach: whatever events are dispatched (to whatever listeners are
    registered), however the clock runs and the window is resized, and
    whichever operations are called in between, isOpen and its four mirrors
    stay in step. *)
Theorem mirrors_agree_along_every_run (inputs : list Input) (w : World) :
  synced w →
  synced (fold_left react inputs w) ∧ mirrors_agree (fold_left react inputs w).
Proof.
  intros Hs. assert (H : synced (fold_left react inputs w)).
  { revert w Hs. induction inputs as [|i inputs IH]; intros w Hs; [done|].
    cbn [fold_left]. apply IH. by apply react_synced. }
  split; [exact H | by apply synced_mirrors_agree].
Qed.

Lemma mirrors_agree_along_every_run_witness :
  let inputs :=
    [Dispatch (mkEvent Click (OnNode 1) EmptyString); Advance 100;
     Dispatch (mkEvent Keydown (OnNode 3) "ArrowDown"); ResizeTo 1024;
     Advance 400; Invoke CallToggle;
     Dispatch (mkEvent Keydown (OnNode 4) "Escape")] in
  synced (fold_left react inputs ready_page) ∧
  mirrors_agree (fold_left react inputs ready_page).
Proof.
  apply mirrors_agree_along_every_run. exists 1, 2. vm_compute. tauto.
Defined.

(** ** Operations that repeat or undo one another *)

Lemma element_elems w w' m : elems w = elems w' → element w m = element w' m.
Proof. unfold element. by intros ->. Qed.

Lemma element_ext (e e' : Element) :
  parentNode e = parentNode e' → classList e = classList e' →
  (∀ k, attributes e !! k = attributes e' !! k) → focusable e = focusable e' →
  e = e'.
Proof.
  destruct e, e'. cbn. intros -> -> H ->. f_equal. by apply map_eq.
Qed.

Lemma token_remove_absent c cs : c ∉ cs → token_remove c cs = cs.
Proof.
  intros H. unfold token_remove. induction cs as [|x cs IH]; [done|].
  rewrite not_elem_of_cons in H. destruct H as [Hx Hcs]. cbn [List.filter].
  rewrite bool_decide_eq_false_2 by congruence. cbn [negb]. by rewrite IH.
Qed.

Lemma token_remove_app c cs cs' :
  token_remove c (cs ++ cs') = token_remove c cs ++ token_remove c cs'.
Proof. apply List.filter_app. Qed.

Lemma token_remove_add_same c cs : c ∉ cs → token_remove c (token_add c cs) = cs.
Proof.
  intros H. unfold token_add. rewrite bool_decide_eq_false_2 by done.
  rewrite token_remove_app, token_remove_absent by done. cbn.
  rewrite bool_decide_eq_true_2 by done. cbn. apply app_nil_r.
Qed.

Lemma token_remove_add_other c c' cs :
  c ≠ c' → token_remove c (token_add c' cs) = token_add c' (token_remove c cs).
Proof.
  intros H. unfold token_add.
  assert (E : bool_decide (c' ∈ token_remove c cs) = bool_decide (c' ∈ cs)).
  { apply bool_decide_ext. rewrite token_remove_elem. intuition congruence. }
  rewrite E. destruct (bool_decide (c' ∈ cs)); [done|].
  rewrite token_remove_app. cbn. rewrite bool_decide_eq_false_2 by congruence. done.
Qed.

Lemma el_remove_class_fixed c e : el_has_class c e = false → el_remove_class c e = e.
Proof.
  unfold el_has_class, el_remove_class. rewrite bool_decide_eq_false. intros H.
  rewrite token_remove_absent by done. by destruct e.
Qed.

Lemma el_add_class_fixed c e : el_has_class c e = true → el_add_class c e = e.
Proof.
  unfold el_has_class, el_add_class, token_add. intros ->. by destruct e.
Qed.

Lemma el_set_attr_fixed k v e : attributes e !! k = Some v → el_set_attr k v e = e.
Proof.
  unfold el_set_attr. intros H. rewrite insert_id by done. by destruct e.
Qed.

Lemma same_page_refl w : same_page w w.
Proof. done. Qed.

(** An update that gives back the element it reads changes nothing. *)
Lemma same_page_upd n f w w' :
  same_page w w' → f (element w n) = element w n → same_page w (upd n f w').
Proof.
  intros [Hr Hf] Hfix. split; [|exact Hf].
  intros m. rewrite element_upd, Hr. case_decide; [subst; by rewrite Hfix | apply Hr].
Qed.

Lemma mark_closed_fixed t n w :
  isOpen w = false →
  has_class w n CONFIG.classes.active = false →
  has_class w (body w) CONFIG.classes.menuOpen = false →
  attribute w t CONFIG.aria.expanded = Some "false" →
  attribute w n CONFIG.aria.hidden = Some "true" →
  same_page w (mark_closed t n w).
Proof.
  intros Ho H1 H2 H3 H4. unfold mark_closed.
  apply same_page_upd; [|by apply el_set_attr_fixed].
  apply same_page_upd; [|by apply el_set_attr_fixed].
  apply same_page_upd; [|by apply el_remove_class_fixed].
  apply same_page_upd; [|by apply el_remove_class_fixed].
  split; [done|]. destruct w as [? ? ? ? ? ? ? io ? ? ? ? ? ? ? ?].
  cbn in Ho. by subst io.
Qed.

(** closeMenu on a closed menu changes nothing, so closing twice is closing
    once: after any closeMenu a second one completes and leaves the same
    page, element for element and field for field. *)
Theorem closeMenu_twice_is_once (w : World) :
  is_Some (toggle w) → is_Some (nav w) →
  completes navigation.closeMenu (exec navigation.closeMenu w) = true ∧
  same_page (exec navigation.closeMenu w)
            (exec navigation.closeMenu (exec navigation.closeMenu w)).
Proof.
  intros [t Ht] [n Hn].
  destruct (closeMenu_synced w t n Ht Hn) as [(t' & n' & Ht' & Hn' & H1 & H2 & H3 & H4) Ho].
  set (w1 := exec navigation.closeMenu w) in *.
  unfold completes, exec. rewrite (closeMenu_run w1 t' n' Ht' Hn'). cbn [fst snd].
  split; [done|]. rewrite Ho in *. by apply mark_closed_fixed.
Qed.

Lemma closeMenu_twice_is_once_witness :
  let w := exec navigation.openMenu ready_page in
  completes navigation.closeMenu (exec navigation.closeMenu w) = true ∧
  same_page (exec navigation.closeMenu w)
            (exec navigation.closeMenu (exec navigation.closeMenu w)).
Proof.
  apply closeMenu_twice_is_once; vm_compute; eauto.
Defined.

Lemma same_reads_upd n f w w' :
  (∀ m, element w' m = element w m) → f (element w n) = element w n →
  ∀ m, element (upd n f w') m = element w m.
Proof.
  intros Hr Hfix m. rewrite element_upd, Hr.
  case_decide; [subst; by rewrite Hfix | apply Hr].
Qed.

(** openMenu on an open menu writes nothing to the page: every element
    reads as before and isOpen stays true.  It still arms the focus
    transfer, so each repeated call adds one more timer when the container
    has a link. *)
Theorem openMenu_on_open_menu (w : World) (t n : node) :
  toggle w = Some t → nav w = Some n → synced w → isOpen w = true →
  let w' := exec navigation.openMenu w in
  (∀ m, element w' m = element w m) ∧ isOpen w' = true ∧
  (is_Some (first_link (mark_open t n w) n) →
     length (timers w') = S (length (timers w))).
Proof.
  intros Ht Hn (t' & n' & Ht' & Hn' & H1 & H2 & H3 & H4) Ho. cbn zeta.
  rewrite Ht in Ht'. rewrite Hn in Hn'. injection Ht' as <-. injection Hn' as <-.
  rewrite Ho in *. cbn in H3, H4.
  unfold exec. rewrite (openMenu_run w t n Ht Hn). cbn [snd].
  split; [|split].
  - intros m.
    rewrite (element_elems _ (mark_open t n w)) by apply schedule_focus_elems.
    unfold mark_open.
    apply same_reads_upd; [|by apply el_set_attr_fixed].
    apply same_reads_upd; [|by apply el_set_attr_fixed].
    apply same_reads_upd; [|by apply el_add_class_fixed].
    apply same_reads_upd; [|by apply el_add_class_fixed].
    done.
  - destruct (schedule_focus_fields n (mark_open t n w)) as (_ & _ & F3 & _).
    rewrite F3. reflexivity.
  - intros [l Hl]. unfold schedule_focus. rewrite Hl.
    change (timers (arm (FocusLink l) 100 (mark_open t n w)))
      with (timers w ++ [mkTimer (nextTimer w) (now w + 100) (FocusLink l)]).
    rewrite length_app. cbn [length]. apply Nat.add_1_r.
Qed.

Lemma openMenu_on_open_menu_witness :
  let w := exec navigation.openMenu ready_page in
  let w' := exec navigation.openMenu w in
  (∀ m, element w' m = element w m) ∧ isOpen w' = true ∧
  length (timers w') = 2.
Proof.
  destruct (openMenu_on_open_menu (exec navigation.openMenu ready_page) 1 2
              eq_refl eq_refl) as (H1 & H2 & H3).
  - exists 1, 2. vm_compute. tauto.
  - reflexivity.
  - split; [exact H1|]. split; [exact H2|]. apply H3. vm_compute. eauto.
Defined.

Lemma parentNode_upd n f w m :
  (∀ e, parentNode (f e) = parentNode e) →
  parentNode (element (upd n f w) m) = parentNode (element w m).
Proof. intros H. rewrite element_upd. case_decide; [subst; apply H | done]. Qed.

Lemma focusable_upd n f w m :
  (∀ e, focusable (f e) = focusable e) →
  focusable (element (upd n f w) m) = focusable (element w m).
Proof. intros H. rewrite element_upd. case_decide; [subst; apply H | done]. Qed.

Lemma classList_upd_attr n k v w m :
  classList (element (upd n (el_set_attr k v) w) m) = classList (element w m).
Proof. rewrite element_upd. by case_decide; subst. Qed.

Lemma classList_upd_add n c w m :
  classList (element (upd n (el_add_class c) w) m) =
  if decide (m = n) then token_add c (classList (element w n))
  else classList (element w m).
Proof. rewrite element_upd. by case_decide. Qed.

Lemma classList_upd_remove n c w m :
  classList (element (upd n (el_remove_class c) w) m) =
  if decide (m = n) then token_remove c (classList (element w n))
  else classList (element w m).
Proof. rewrite element_upd. by case_decide. Qed.

(** From a closed menu, openMenu followed by closeMenu gives every element
    back as it was: the same class list, in the same order, and the same
    attributes, also when the handles and the body are one element.  Only
    the timer queue remembers the round trip. *)
Theorem open_then_close_restores (w : World) (t n : node) :
  toggle w = Some t → nav w = Some n → synced w → isOpen w = false →
  let w' := exec navigation.closeMenu (exec navigation.openMenu w) in
  (∀ m, element w' m = element w m) ∧ isOpen w' = false ∧
  menu_state w' = menu_state w.
Proof.
  intros Ht Hn Hs Ho. cbn zeta.
  destruct Hs as (t' & n' & Ht' & Hn' & H1 & H2 & H3 & H4).
  rewrite Ht in Ht'. rewrite Hn in Hn'. injection Ht' as <-. injection Hn' as <-.
  rewrite Ho in *. cbn [bool_attr negb] in H3, H4.
  apply bool_decide_eq_false in H1, H2.
  assert (E1 : exec navigation.openMenu w = schedule_focus n (mark_open t n w)).
  { unfold exec. by rewrite (openMenu_run w t n Ht Hn). }
  assert (E2 : exec navigation.closeMenu (exec navigation.openMenu w)
               = mark_closed t n (schedule_focus n (mark_open t n w))).
  { destruct (schedule_focus_fields n (mark_open t n w)) as (F1 & F2 & _).
    rewrite E1. unfold exec.
    rewrite (closeMenu_run _ t n); [done | by rewrite F1 | by rewrite F2]. }
  assert (Hr : ∀ m, element (exec navigation.closeMenu (exec navigation.openMenu w)) m
                    = element w m).
  { intros m. rewrite E2. unfold mark_closed.
    set (w1 := set_isOpen false (schedule_focus n (mark_open t n w))).
    assert (R1 : ∀ x, element w1 x = element (mark_open t n w) x).
    { intros x. apply element_elems. apply schedule_focus_elems. }
    assert (Hb : body (schedule_focus n (mark_open t n w)) = body w).
    { by destruct (schedule_focus_fields n (mark_open t n w)) as (_ & _ & _ & ->). }
    rewrite Hb. apply element_ext.
    - rewrite !parentNode_upd by done. rewrite R1. unfold mark_open.
      by rewrite !parentNode_upd.
    - rewrite !classList_upd_attr, !classList_upd_remove, !R1. unfold mark_open.
      rewrite !classList_upd_attr, !classList_upd_add.
      change (element (set_isOpen true w)) with (element w).
      assert (Hne : CONFIG.classes.active ≠ CONFIG.classes.menuOpen) by done.
      destruct (decide (m = body w)) as [-> | Hmb];
        destruct (decide (body w = n)) as [Hbn | Hbn];
        try destruct (decide (n = body w)) as [Hnb | Hnb];
        try destruct (decide (m = n)) as [-> | Hmn];
        try congruence; subst;
        repeat first
          [ rewrite decide_True by done
          | rewrite decide_False by done
          | rewrite token_remove_add_other by done
          | rewrite (token_remove_add_same CONFIG.classes.active) by done
          | rewrite (token_remove_add_same CONFIG.classes.menuOpen) by done
          | rewrite token_remove_absent by done ];
        try done.
    - intros k. fold (attribute (upd n (el_set_attr CONFIG.aria.hidden "true")
        (upd t (el_set_attr CONFIG.aria.expanded "false")
          (upd (body w) (el_remove_class CONFIG.classes.menuOpen)
            (upd n (el_remove_class CONFIG.classes.active) w1)))) m k).
      fold (attribute w m k).
      rewrite !attribute_upd_set, !attribute_upd_remove.
      assert (R2 : attribute w1 m k = attribute (mark_open t n w) m k).
      { apply attribute_elems. apply schedule_focus_elems. }
      rewrite R2. unfold mark_open.
      rewrite !attribute_upd_set, !attribute_upd_add.
      change (attribute (set_isOpen true w) m k) with (attribute w m k).
      repeat case_decide; destruct_and?; subst; try done; try congruence;
        exfalso; intuition congruence.
    - rewrite !focusable_upd by done. rewrite R1. unfold mark_open.
      by rewrite !focusable_upd. }
  split; [exact Hr|]. split; [rewrite E2; reflexivity|].
  unfold menu_state.
  assert (Hf : toggle (exec navigation.closeMenu (exec navigation.openMenu w)) = Some t ∧
               nav (exec navigation.closeMenu (exec navigation.openMenu w)) = Some n ∧
               isOpen (exec navigation.closeMenu (exec navigation.openMenu w)) = false ∧
               body (exec navigation.closeMenu (exec navigation.openMenu w)) = body w).
  { rewrite E2.
    destruct (schedule_focus_fields n (mark_open t n w)) as (F1 & F2 & _ & F4).
    repeat split.
    - transitivity (toggle (mark_open t n w)); [exact F1 | exact Ht].
    - transitivity (nav (mark_open t n w)); [exact F2 | exact Hn].
    - exact F4. }
  destruct Hf as (F1 & F2 & F3 & F4).
  rewrite F1, F2, F3, F4, Ht, Hn, Ho.
  unfold has_class, attribute. by rewrite !Hr.
Qed.

Lemma open_then_close_restores_witness :
  let w' := exec navigation.closeMenu (exec navigation.openMenu ready_page) in
  (∀ m, element w' m = element ready_page m) ∧ isOpen w' = false ∧
  menu_state w' = menu_state ready_page.
Proof.
  apply (open_then_close_restores ready_page 1 2); [reflexivity | reflexivity | | reflexivity].
  exists 1, 2. vm_compute. tauto.
Defined.

(** closeMenu does not clear the focus transfer openMenu armed.  When the
    menu is opened and closed again before the 100 ms are over (nothing else
    was pending), the timer still fires: the first link of the container,
    if it is in the document and focusable, receives the focus although
    isOpen is false and the mirrors read closed. *)
Theorem close_keeps_focus_transfer (w : World) (t n l : node) :
  toggle w = Some t → nav w = Some n → timers w = [] →
  first_link (mark_open t n w) n = Some l → can_focus w l = true →
  let w1 := exec navigation.closeMenu (exec navigation.openMenu w) in
  let w2 := advance_to (now w + 100) w1 in
  timers w1 = [mkTimer (nextTimer w) (now w + 100) (FocusLink l)] ∧
  isOpen w2 = false ∧ synced w2 ∧ activeElement w2 = Some l ∧
  trace w2 = trace w ++ [Fired (mkTimer (nextTimer w) (now w + 100) (FocusLink l));
                         FocusCall l].
Proof.
  intros Ht Hn Htm Hl Hin. cbn zeta.
  assert (E1 : exec navigation.openMenu w = arm (FocusLink l) 100 (mark_open t n w)).
  { unfold exec. rewrite (openMenu_run w t n Ht Hn). cbn [snd].
    unfold schedule_focus. by rewrite Hl. }
  assert (E2 : exec navigation.closeMenu (exec navigation.openMenu w)
               = mark_closed t n (arm (FocusLink l) 100 (mark_open t n w))).
  { rewrite E1. unfold exec. by rewrite (closeMenu_run _ t n). }
  destruct (closeMenu_synced (exec navigation.openMenu w) t n) as [Hs Ho].
  { by rewrite E1. }
  { by rewrite E1. }
  set (tm := mkTimer (nextTimer w) (now w + 100) (FocusLink l)).
  assert (Hq : timers (exec navigation.closeMenu (exec navigation.openMenu w)) = [tm]).
  { rewrite E2.
    change (timers (mark_closed t n (arm (FocusLink l) 100 (mark_open t n w))))
      with (timers w ++ [tm]).
    by rewrite Htm. }
  assert (Hd : document (exec navigation.closeMenu (exec navigation.openMenu w))
               = document w ∧
               trace (exec navigation.closeMenu (exec navigation.openMenu w))
               = trace w ∧
               now (exec navigation.closeMenu (exec navigation.openMenu w)) = now w).
  { rewrite E2. done. }
  destruct Hd as (Hd & Htr & Hnow).
  assert (Hfoc : focusable (element (exec navigation.closeMenu (exec navigation.openMenu w)) l)
                 = focusable (element w l)).
  { rewrite E2. unfold mark_closed. rewrite !focusable_upd by done.
    rewrite (element_elems _ (mark_open t n w)) by done.
    unfold mark_open. by rewrite !focusable_upd. }
  set (w1 := exec navigation.closeMenu (exec navigation.openMenu w)) in *.
  assert (Ea : advance_to (now w + 100) w1
               = set_now (Z.max (Z.max (now w1) (now w + 100)) (now w + 100))
                   (exec (focus l) (dequeue tm w1))).
  { unfold advance_to. rewrite Hq. cbn [length run_timers].
    rewrite Hq. cbn [next_due]. change (due tm) with (now w + 100)%Z.
    rewrite Z.leb_refl. rewrite fire_run. cbn [callback tm run_callback].
    set (w3 := exec (focus l) (dequeue tm w1)).
    assert (Hn3 : now w3 = Z.max (now w1) (now w + 100)).
    { unfold w3. destruct (focus_fields l (dequeue tm w1)) as (_ & -> & _). done. }
    by rewrite Hn3. }
  rewrite Ea. split; [exact Hq|].
  split; [|split; [|split]].
  - destruct (focus_fields l (dequeue tm w1)) as (_ & _ & _ & F & _).
    transitivity (isOpen (exec (focus l) (dequeue tm w1))); [done|].
    rewrite F. exact Ho.
  - eapply synced_same_menu; [|exact Hs].
    destruct (focus_same_menu l (dequeue tm w1)) as (A & B & C & D & E).
    split; [exact A|]. split; [exact B|]. split; [exact C|]. split; [exact D | exact E].
  - transitivity (activeElement (exec (focus l) (dequeue tm w1))); [done|].
    rewrite focus_active.
    assert (Hc : can_focus (dequeue tm w1) l = can_focus w l).
    { unfold can_focus. change (document (dequeue tm w1)) with (document w1).
      rewrite Hd. f_equal.
      rewrite (element_elems (dequeue tm w1) w1) by done. exact Hfoc. }
    by rewrite Hc, Hin.
  - transitivity (trace (exec (focus l) (dequeue tm w1))); [done|].
    rewrite focus_trace.
    change (trace (dequeue tm w1)) with (trace w1 ++ [Fired tm]).
    rewrite Htr, <- app_assoc. done.
Qed.

Lemma close_keeps_focus_transfer_witness :
  let w1 := exec navigation.closeMenu (exec navigation.openMenu ready_page) in
  let w2 := advance_to 100 w1 in
  timers w1 = [mkTimer 1 100 (FocusLink 3)] ∧
  isOpen w2 = false ∧ synced w2 ∧ activeElement w2 = Some 3 ∧
  trace w2 = [Fired (mkTimer 1 100 (FocusLink 3)); FocusCall 3].
Proof.
  apply (close_keeps_focus_transfer ready_page 1 2 3); reflexivity.
Defined.

(** ** What setup leaves behind *)

Lemma registered_from_imap {A} (g : A → nat → Listener) (i : nat) (l : list A) :
  registered_from g i l = imap (λ j x, g x (i + j)) l.
Proof.
  revert i. induction l as [|x l IH]; intros i; [done|].
  cbn [registered_from]. rewrite imap_cons, Nat.add_0_r, IH. f_equal.
  apply imap_ext. intros j y _. cbn. f_equal. lia.
Qed.

Lemma registered_from_const {A} (h : A → Listener) (i : nat) (l : list A) :
  registered_from (λ x _, h x) i l = h <$> l.
Proof.
  revert i. induction l as [|x l IH]; intros i; [done|].
  cbn [registered_from]. by rewrite IH.
Qed.

Lemma ancestors_ext fuel (els els' : gmap node Element) x :
  (∀ y, parentNode (default blank (els !! y)) = parentNode (default blank (els' !! y))) →
  ancestors fuel els x = ancestors fuel els' x.
Proof.
  intros H. revert x. induction fuel as [|fuel IH]; intros x; [done|].
  cbn [ancestors]. rewrite H. destruct (parentNode _); [by rewrite IH | done].
Qed.

(** Writing an attribute of an element the store holds changes no query. *)
Lemma matches_upd_attr n k v w sel ctx x :
  is_Some (elems w !! n) →
  matches (upd n (el_set_attr k v) w) sel ctx x = matches w sel ctx x.
Proof.
  intros [e He]. unfold matches. destruct (selector_class sel) as [c|]; [|done].
  rewrite has_class_upd_attr. destruct ctx as [ctx|]; [|done].
  unfold node_contains, path_of.
  change (elems (upd n (el_set_attr k v) w))
    with (<[n := el_set_attr k v (element w n)]> (elems w)).
  rewrite map_size_insert_Some by eauto.
  rewrite (ancestors_ext _ _ (elems w)); [done|].
  intros y. rewrite lookup_insert. case_decide; [|done].
  subst y. unfold element. by rewrite He.
Qed.

Lemma found_in_store w sel x : found w sel = Some x → is_Some (elems w !! x).
Proof.
  intros H. apply head_Some_elem_of in H.
  apply list_elem_of_In, List.filter_In in H as [_ H].
  unfold matches in H. destruct (selector_class sel) as [c|]; [|done].
  apply andb_true_iff in H as [H _].
  unfold has_class, el_has_class, element in H.
  destruct (elems w !! x); [eauto|].
  cbn in H. apply bool_decide_eq_true in H. by apply elem_of_nil in H.
Qed.

Lemma upd_in_store n f w x : is_Some (elems w !! x) → is_Some (elems (upd n f w) !! x).
Proof.
  intros H. change (elems (upd n f w)) with (<[n := f (element w n)]> (elems w)).
  rewrite lookup_insert. case_decide; eauto.
Qed.

Lemma bindEvents_registers w t n :
  toggle w = Some t → nav w = Some n →
  navigation.bindEvents w =
  (Ok tt, set_listeners
            (listeners w ++
             [mkListener (OnNode t) Click ToggleClick] ++
             ((λ l, mkListener (OnNode l) Click LinkClick) <$> nav_links w n) ++
             [mkListener OnDocument Click DocumentClick;
              mkListener OnDocument Keydown DocumentKeydown;
              mkListener OnWindow Resize WindowResize]) w).
Proof.
  intros Ht Hn. destruct w as [els doc b ae iw tg nv io tmo nw tms nxt ls ps dp tr].
  cbn in Ht, Hn. subst.
  set (w := mkWorld els doc b ae iw (Some t) (Some n) io tmo nw tms nxt ls ps dp tr).
  set (w1 := set_listeners (ls ++ [mkListener (OnNode t) Click ToggleClick]) w).
  set (g := λ (link : node) (_ : nat), mkListener (OnNode link) Click LinkClick).
  change (navigation.bindEvents w) with
    (bind (for_each_from 0 (nav_links w n)
             (λ link _, utils.on (Some (OnNode link)) Click LinkClick))
          (λ _, utils.on (Some OnDocument) Click DocumentClick;;
                utils.on (Some OnDocument) Keydown DocumentKeydown;;
                utils.on (Some OnWindow) Resize WindowResize) w1).
  unfold bind at 1. rewrite (for_each_registers _ g) by done.
  unfold g. rewrite registered_from_const.
  unfold utils.on, addEventListener, modify, bind. cbn.
  rewrite <- !app_assoc. done.
Qed.

Lemma setupAccessibility_registers w t n :
  toggle w = Some t → nav w = Some n →
  is_Some (elems w !! t) → is_Some (elems w !! n) →
  navigation.setupAccessibility w =
  (Ok tt, set_listeners
            (listeners w ++
             imap (λ i l, mkListener (OnNode l) Keydown (LinkKeydown (nav_links w n) i))
                  (nav_links w n))
            (announce_closed t n w)).
Proof.
  intros Ht Hn Hst Hsn.
  assert (El : nav_links (announce_closed t n w) n = nav_links w n).
  { unfold nav_links, announce_closed.
    change (document (upd n _ (upd t _ w))) with (document w).
    apply List.filter_ext. intros x.
    rewrite matches_upd_attr by (by apply upd_in_store).
    by rewrite matches_upd_attr. }
  destruct w as [els doc b ae iw tg nv io tmo nw tms nxt ls ps dp tr].
  cbn in Ht, Hn. subst.
  set (w := mkWorld els doc b ae iw (Some t) (Some n) io tmo nw tms nxt ls ps dp tr) in *.
  set (links := nav_links (announce_closed t n w) n) in *.
  set (g := λ (link : node) (index : nat),
              mkListener (OnNode link) Keydown (LinkKeydown links index)).
  change (navigation.setupAccessibility w) with
    (for_each_from 0 links
       (λ link index, utils.on (Some (OnNode link)) Keydown (LinkKeydown links index))
       (announce_closed t n w)).
  rewrite (for_each_registers _ g) by done.
  rewrite registered_from_imap. unfold g. rewrite <- El. done.
Qed.

Lemma init_found_run w t n :
  found w CONFIG.selectors.toggle = Some t → found w CONFIG.selectors.nav = Some n →
  navigation.init w =
  (Ok tt, set_listeners
            (listeners w ++
             [mkListener (OnNode t) Click ToggleClick] ++
             ((λ l, mkListener (OnNode l) Click LinkClick) <$> nav_links w n) ++
             [mkListener OnDocument Click DocumentClick;
              mkListener OnDocument Keydown DocumentKeydown;
              mkListener OnWindow Resize WindowResize] ++
             imap (λ i l, mkListener (OnNode l) Keydown (LinkKeydown (nav_links w n) i))
                  (nav_links w n))
            (announce_closed t n (set_nav (Some n) (set_toggle (Some t) w)))).
Proof.
  intros Ht Hn.
  pose proof (found_in_store _ _ _ Ht) as Hst.
  pose proof (found_in_store _ _ _ Hn) as Hsn.
  set (w1 := set_nav (Some n) (set_toggle (Some t) w)).
  assert (E : navigation.init w
              = (navigation.bindEvents;; navigation.setupAccessibility) w1).
  { change (navigation.init w) with
      ((if negb (bool_decide (is_Some (found w CONFIG.selectors.toggle))) ||
           negb (bool_decide (is_Some (found w CONFIG.selectors.nav)))
        then ret tt
        else navigation.bindEvents;; navigation.setupAccessibility)
         (set_nav (found w CONFIG.selectors.nav)
            (set_toggle (found w CONFIG.selectors.toggle) w))).
    rewrite Ht, Hn. rewrite !bool_decide_eq_true_2 by eauto. done. }
  rewrite E. unfold bind.
  rewrite (bindEvents_registers w1 t n eq_refl eq_refl).
  set (L1 := listeners w1 ++ _).
  rewrite (setupAccessibility_registers (set_listeners L1 w1) t n
             eq_refl eq_refl Hst Hsn).
  f_equal.
  transitivity
    (set_listeners
       ((listeners w ++
         [mkListener (OnNode t) Click ToggleClick] ++
         ((λ l, mkListener (OnNode l) Click LinkClick) <$> nav_links w n) ++
         [mkListener OnDocument Click DocumentClick;
          mkListener OnDocument Keydown DocumentKeydown;
          mkListener OnWindow Resize WindowResize]) ++
        imap (λ i l, mkListener (OnNode l) Keydown (LinkKeydown (nav_links w n) i))
             (nav_links w n))
       (announce_closed t n w1)); [reflexivity|].
  f_equal. by rewrite <- !app_assoc.
Qed.

(** A setup that finds both elements stores the first match of each in the
    handles and announces a closed menu: aria-expanded "false" on the toggle,
    aria-hidden "true" on the container.  It writes nothing else: no class
    list and no other attribute changes, isOpen keeps the value it had, no
    timer is armed and the focus does not move.  So a page that comes with
    the active or menu-open class keeps it through setup. *)
Theorem init_announces_closed (w : World) (t n : node) :
  found w CONFIG.selectors.toggle = Some t → found w CONFIG.selectors.nav = Some n →
  let w' := exec navigation.init w in
  completes navigation.init w = true ∧
  toggle w' = Some t ∧ nav w' = Some n ∧
  attribute w' t CONFIG.aria.expanded = Some "false" ∧
  attribute w' n CONFIG.aria.hidden = Some "true" ∧
  (∀ m, classList (element w' m) = classList (element w m)) ∧
  (∀ m k, ¬ (m = t ∧ k = CONFIG.aria.expanded) → ¬ (m = n ∧ k = CONFIG.aria.hidden) →
          attribute w' m k = attribute w m k) ∧
  isOpen w' = isOpen w ∧ timers w' = timers w ∧ activeElement w' = activeElement w.
Proof.
  intros Ht Hn. cbn zeta. unfold completes, exec.
  rewrite (init_found_run w t n Ht Hn). cbn [fst snd].
  set (L := _ ++ _). set (w1 := set_nav (Some n) (set_toggle (Some t) w)).
  assert (Ha : ∀ m k, attribute (set_listeners L (announce_closed t n w1)) m k
                      = attribute (announce_closed t n w1) m k).
  { intros m k. by apply attribute_elems. }
  split; [done|]. split; [done|]. split; [done|].
  split; [|split; [|split; [|split]]].
  - rewrite Ha. unfold announce_closed.
    rewrite attribute_upd_set, decide_False by (intros [_ ?]; done).
    by rewrite attribute_upd_set, decide_True.
  - rewrite Ha. unfold announce_closed. by rewrite attribute_upd_set, decide_True.
  - intros m.
    rewrite (element_elems _ (announce_closed t n w1)) by done.
    unfold announce_closed. rewrite !classList_upd_attr.
    by rewrite (element_elems w1 w).
  - intros m k H1 H2. rewrite Ha. unfold announce_closed.
    rewrite !attribute_upd_set, !decide_False by done.
    by apply attribute_elems.
  - done.
Qed.

Lemma init_announces_closed_witness :
  completes navigation.init page = true ∧
  toggle ready_page = Some 1 ∧ nav ready_page = Some 2 ∧
  attribute ready_page 1 CONFIG.aria.expanded = Some "false" ∧
  attribute ready_page 2 CONFIG.aria.hidden = Some "true" ∧
  isOpen ready_page = false ∧ timers ready_page = [].
Proof.
  destruct (init_announces_closed page 1 2 eq_refl eq_refl)
    as (H1 & H2 & H3 & H4 & H5 & _ & _ & H8 & H9 & _).
  split; [exact H1|]. split; [exact H2|]. split; [exact H3|].
  split; [exact H4|]. split; [exact H5|]. split; [exact H8 | exact H9].
Defined.

(** A setup that finds both elements registers, after whatever was
    registered before and in this order: the click listener of the toggle;
    one click listener per link of the container, in document order; the
    click and keydown listeners of the document and the resize listener of
    the window; one keydown listener per link, and the listener of the link
    at position i carries the index i and the whole list of links. *)
Theorem init_registers_listeners (w : World) (t n : node) :
  found w CONFIG.selectors.toggle = Some t → found w CONFIG.selectors.nav = Some n →
  listeners (exec navigation.init w) =
  listeners w ++
  [mkListener (OnNode t) Click ToggleClick] ++
  ((λ l, mkListener (OnNode l) Click LinkClick) <$> nav_links w n) ++
  [mkListener OnDocument Click DocumentClick;
   mkListener OnDocument Keydown DocumentKeydown;
   mkListener OnWindow Resize WindowResize] ++
  imap (λ i l, mkListener (OnNode l) Keydown (LinkKeydown (nav_links w n) i))
       (nav_links w n).
Proof.
  intros Ht Hn. unfold exec. by rewrite (init_found_run w t n Ht Hn).
Qed.

Lemma init_registers_listeners_witness :
  listeners ready_page =
  [mkListener (OnNode 1) Click ToggleClick;
   mkListener (OnNode 3) Click LinkClick;
   mkListener (OnNode 4) Click LinkClick;
   mkListener (OnNode 5) Click LinkClick;
   mkListener OnDocument Click DocumentClick;
   mkListener OnDocument Keydown DocumentKeydown;
   mkListener OnWindow Resize WindowResize;
   mkListener (OnNode 3) Keydown (LinkKeydown [3; 4; 5] 0);
   mkListener (OnNode 4) Keydown (LinkKeydown [3; 4; 5] 1);
   mkListener (OnNode 5) Keydown (LinkKeydown [3; 4; 5] 2)].
Proof.
  exact (init_registers_listeners page 1 2 eq_refl eq_refl).
Defined.

(** ** The debounced listener in every run *)

Section Keeps.
Variable R : World → World → Prop.
Hypothesis R_refl : ∀ w, R w w.
Hypothesis R_trans : ∀ w1 w2 w3, R w1 w2 → R w2 w3 → R w1 w3.

Lemma keeps_ret {A} (a : A) : keeps R (ret a).
Proof. intros w. apply R_refl. Qed.

Lemma keeps_gets {A} (f : World → A) : keeps R (gets f).
Proof. intros w. apply R_refl. Qed.

Lemma keeps_throw {A} : keeps R (@throw A).
Proof. intros w. apply R_refl. Qed.

Lemma keeps_deref {A} (o : option A) : keeps R (deref o).
Proof. destruct o; [apply keeps_ret | apply keeps_throw]. Qed.

Lemma keeps_modify (f : World → World) : (∀ w, R w (f w)) → keeps R (modify f).
Proof. intros H w. apply H. Qed.

Lemma keeps_bind {A B} (m : M A) (f : A → M B) :
  keeps R m → (∀ a, keeps R (f a)) → keeps R (bind m f).
Proof.
  intros Hm Hf w. specialize (Hm w). unfold exec, bind in *.
  destruct (m w) as [[a|] w1]; cbn in *; [|exact Hm].
  eapply R_trans; [exact Hm | apply Hf].
Qed.

Lemma keeps_attempt (m : M unit) : keeps R m → keeps R (attempt m).
Proof. intros H w. apply H. Qed.

Lemma keeps_and_then (a b : M bool) : keeps R a → keeps R b → keeps R (and_then a b).
Proof.
  intros Ha Hb. apply keeps_bind; [exact Ha|].
  intros []; [exact Hb | apply keeps_ret].
Qed.

Lemma keeps_for_each {A} (l : list A) (f : A → nat → M unit) i :
  (∀ x j, keeps R (f x j)) → keeps R (for_each_from i l f).
Proof.
  intros Hf. revert i. induction l as [|x l IH]; intros i; [apply keeps_ret|].
  cbn [for_each_from]. apply keeps_bind; [apply Hf | intros _; apply IH].
Qed.
End Keeps.

Lemma same_sched_refl w : same_sched w w.
Proof. done. Qed.

Lemma same_sched_trans w1 w2 w3 : same_sched w1 w2 → same_sched w2 w3 → same_sched w1 w3.
Proof. unfold same_sched. intros [? ?] [? ?]. split; congruence. Qed.

Ltac keeps_step :=
  first
    [ apply (keeps_ret _ same_sched_refl)
    | apply (keeps_gets _ same_sched_refl)
    | apply (keeps_deref _ same_sched_refl)
    | apply (keeps_and_then _ same_sched_refl same_sched_trans)
    | apply (keeps_bind _ same_sched_trans); [|intros ?]
    | apply keeps_modify; intros ?; done ].

Lemma keeps_sched_focus n : keeps same_sched (focus n).
Proof. intros w. unfold focus, modify, exec. cbn [snd]. by destruct (can_focus _ _). Qed.

Lemma keeps_sched_closeMenu : keeps same_sched navigation.closeMenu.
Proof.
  unfold navigation.closeMenu, navigation.this_nav, navigation.this_toggle,
    classList_remove, setAttribute, update_element.
  repeat keeps_step.
Qed.

Lemma keeps_sched_setTimeout_focus l delay :
  keeps same_sched (setTimeout (FocusLink l) delay).
Proof.
  intros w. split; [|done]. unfold pending_checks.
  change (timers (exec (setTimeout (FocusLink l) delay) w))
    with (timers w ++ [mkTimer (nextTimer w) (now w + delay) (FocusLink l)]).
  rewrite List.filter_app. cbn. apply app_nil_r.
Qed.

Lemma keeps_sched_openMenu : keeps same_sched navigation.openMenu.
Proof.
  unfold navigation.openMenu, navigation.this_nav, navigation.this_toggle,
    classList_add, setAttribute, update_element, utils.sel, querySelector,
    querySelectorAll.
  repeat keeps_step.
  match goal with |- keeps _ (match ?x with _ => _ end) => destruct x as [l|] end;
    [|keeps_step].
  keeps_step; [apply keeps_sched_setTimeout_focus | keeps_step].
Qed.

Lemma keeps_sched_handle h e : h ≠ WindowResize → keeps same_sched (handle h e).
Proof.
  intros Hh. destruct h as [| | | | |links index]; cbn [handle]; [..|done|].
  - unfold navigation.on_toggle_click, navigation.toggleMenu, stopPropagation.
    repeat keeps_step.
    match goal with |- keeps _ (if ?b then _ else _) => destruct b end;
      [apply keeps_sched_closeMenu | apply keeps_sched_openMenu].
  - unfold navigation.on_link_click, utils.isMobile. repeat keeps_step.
    match goal with |- keeps _ (if ?b then _ else _) => destruct b end;
      [apply keeps_sched_closeMenu | keeps_step].
  - unfold navigation.on_document_click, navigation.this_nav,
      navigation.this_toggle, contains.
    repeat keeps_step.
    match goal with |- keeps _ (if ?b then _ else _) => destruct b end;
      [apply keeps_sched_closeMenu | keeps_step].
  - unfold navigation.on_document_keydown, navigation.this_toggle.
    repeat keeps_step.
    match goal with |- keeps _ (if ?b then _ else _) => destruct b end;
      [|keeps_step].
    keeps_step; [apply keeps_sched_closeMenu|].
    repeat keeps_step. apply keeps_sched_focus.
  - unfold navigation.on_link_keydown, preventDefault.
    repeat match goal with |- keeps _ (if ?b then _ else _) => destruct b end;
      repeat keeps_step; apply keeps_sched_focus.
Qed.

Lemma one_check_same_sched w w' : same_sched w w' → one_check w → one_check w'.
Proof.
  intros [Hp Ht] [H | (x & H1 & H2)]; [left | right; exists x; split]; congruence.
Qed.

Lemma one_check_named w : one_check w → checks_named w.
Proof.
  intros [H | (x & H1 & H2)] y Hy.
  - rewrite H in Hy. by apply elem_of_nil in Hy.
  - rewrite H1 in Hy. apply list_elem_of_singleton in Hy as ->. exact H2.
Qed.

Lemma filter_filter_comm {A} (f g : A → bool) (l : list A) :
  List.filter f (List.filter g l) = List.filter g (List.filter f l).
Proof.
  induction l as [|x l IH]; [done|]. cbn [List.filter].
  destruct (f x) eqn:Hf, (g x) eqn:Hg; cbn [List.filter]; rewrite ?Hf, ?Hg, IH; done.
Qed.

(** The timer callback of the listener leaves no check pending. *)
Lemma later_clears w :
  one_check w → pending_checks (exec (run_callback Later) w) = []
                ∧ timeout (exec (run_callback Later) w) = timeout w.
Proof.
  intros H. cbn [run_callback]. rewrite later_run.
  destruct (clearTimeout_fields (timeout w) w) as (C1 & _ & _ & C4 & _).
  set (w0 := exec (clearTimeout (timeout w)) w) in *.
  destruct (resize_check_fields w0) as (R1 & _ & _ & R4 & _).
  split; [|congruence]. unfold pending_checks. rewrite R1, C1.
  destruct H as [H | (x & H1 & H2)].
  - destruct (timeout w); [by apply filter_within_nil | exact H].
  - rewrite H2, filter_filter_comm. fold (pending_checks w). rewrite H1.
    cbn. by rewrite bool_decide_eq_true_2.
Qed.

Lemma run_callback_one_check cb w : one_check w → one_check (exec (run_callback cb) w).
Proof.
  intros H. destruct cb as [l|].
  - eapply one_check_same_sched; [apply keeps_sched_focus | exact H].
  - left. by apply later_clears.
Qed.

Lemma dequeue_one_check t w : t ∈ timers w → one_check w → one_check (dequeue t w).
Proof.
  intros Hin H. destruct (dequeue_fields t w) as (D1 & _ & _ & D4 & _).
  destruct (is_later t) eqn:Hl.
  - left. unfold pending_checks. rewrite D1, (remove_timer_later t _ Hl).
    fold (pending_checks w).
    assert (Hp : t ∈ pending_checks w) by (by apply pending_checks_elem).
    destruct H as [H | (x & H1 & _)].
    + rewrite H in Hp. by apply elem_of_nil in Hp.
    + rewrite H1 in Hp. apply list_elem_of_singleton in Hp as ->.
      rewrite H1. cbn. by rewrite bool_decide_eq_true_2.
  - eapply one_check_same_sched; [|exact H]. split; [|exact D4].
    unfold pending_checks. rewrite D1. by apply remove_timer_other.
Qed.

Lemma run_timers_one_check fuel limit w : one_check w → one_check (run_timers fuel limit w).
Proof.
  revert w. induction fuel as [|fuel IH]; intros w H; [done|].
  cbn [run_timers]. destruct (next_due limit (timers w)) as [t|] eqn:E; [|exact H].
  destruct (next_due_Some _ _ _ E) as [Hin _].
  apply IH. rewrite fire_run. apply run_callback_one_check.
  by apply dequeue_one_check.
Qed.

Lemma handle_one_check h e w : one_check w → one_check (exec (handle h e) w).
Proof.
  intros H.
  destruct h as [| | | | |links index];
    try (eapply one_check_same_sched;
           [apply keeps_sched_handle; discriminate | exact H]).
  cbn [handle].
  destruct (on_window_resize_arms e w (one_check_named w H)) as ((id & Hp & Ht & _) & _).
  right. eexists. split; [exact Hp | exact Ht].
Qed.

Lemma invoke_one_check ls e w : one_check w → one_check (exec (invoke ls e) w).
Proof.
  revert w. induction ls as [|l ls IH]; intros w H; [done|].
  change (exec (invoke (l :: ls) e) w)
    with (exec (invoke ls e) (exec (handle (l_handler l) e) w)).
  apply IH. by apply handle_one_check.
Qed.

Lemma propagate_one_check path e w : one_check w → one_check (exec (propagate path e) w).
Proof.
  revert w. induction path as [|cur path IH]; intros w H; [done|].
  cbn [propagate]. unfold exec, bind, gets. cbn beta iota.
  destruct (invoke_runs (listeners_for cur (ev_type e) (listeners w)) e w) as [I1 _].
  pose proof (invoke_one_check (listeners_for cur (ev_type e) (listeners w)) e w H) as I2.
  unfold exec in I2.
  destruct (invoke _ e w) as [r w1] eqn:E. cbn in I1, I2. subst r.
  assert (Hb : ∀ b : bool, one_check ((if b then ret tt else propagate path e) w1).2).
  { intros []; [exact I2 | apply (IH w1 I2)]. }
  apply Hb.
Qed.

Lemma dispatchEvent_one_check e w : one_check w → one_check (exec (dispatchEvent e) w).
Proof.
  intros H.
  change (exec (dispatchEvent e) w)
    with (exec (propagate (event_path (fresh_event w) e) e) (fresh_event w)).
  apply propagate_one_check. exact H.
Qed.

Lemma react_one_check w i : one_check w → one_check (react w i).
Proof.
  intros H. destruct i as [e|t|width|c]; cbn [react].
  - by apply dispatchEvent_one_check.
  - unfold advance_to.
    eapply one_check_same_sched;
      [|apply (run_timers_one_check (length (timers w)) t w H)].
    done.
  - change (exec (resize_to width) w)
      with (exec (dispatchEvent (mkEvent Resize OnWindow EmptyString)) (set_innerWidth width w)).
    apply dispatchEvent_one_check. exact H.
  - eapply one_check_same_sched; [|exact H].
    destruct c; cbn [call];
      [apply keeps_sched_openMenu | apply keeps_sched_closeMenu |].
    unfold navigation.toggleMenu. keeps_step; [keeps_step|].
    match goal with |- keeps _ (if ?b then _ else _) => destruct b end;
      [apply keeps_sched_closeMenu | apply keeps_sched_openMenu].
Qed.

(** The debounce never lets resize checks pile up: from a world with at most
    one pending check that the variable timeout names (so from any page just
    set up), however events, resizes, calls and the clock follow one
    another, at most one check is pending at any time and timeout names
    it. *)
Theorem at_most_one_check_pending (inputs : list Input) (w : World) :
  one_check w →
  one_check (fold_left react inputs w) ∧
  length (pending_checks (fold_left react inputs w)) ≤ 1.
Proof.
  intros H. assert (H' : one_check (fold_left react inputs w)).
  { revert w H. induction inputs as [|i inputs IH]; intros w H; [done|].
    cbn [fold_left]. apply IH. by apply react_one_check. }
  split; [exact H'|]. destruct H' as [-> | (x & -> & _)]; cbn; lia.
Qed.

Lemma at_most_one_check_pending_witness :
  let inputs :=
    [ResizeTo 700; Advance 50; ResizeTo 800; ResizeTo 900; Advance 120;
     Dispatch (mkEvent Click (OnNode 1) EmptyString); ResizeTo 1024; Advance 1000] in
  one_check (fold_left react inputs ready_page) ∧
  length (pending_checks (fold_left react inputs ready_page)) ≤ 1.
Proof.
  apply at_most_one_check_pending. left. reflexivity.
Defined.

(** * Events on the page that is set up *)

(** ** The tree stays as it is *)

Lemma same_tree_refl w : same_tree w w.
Proof. done. Qed.

Lemma same_tree_trans w1 w2 w3 : same_tree w1 w2 → same_tree w2 w3 → same_tree w1 w3.
Proof.
  intros (A1 & A2 & A3 & A4 & A5) (B1 & B2 & B3 & B4 & B5).
  split; [congruence|]. split; [congruence|]. split; [congruence|].
  split; intros y; [by rewrite B4 | by rewrite B5].
Qed.

Lemma calm_refl w : calm w w.
Proof. done. Qed.

Lemma calm_trans w1 w2 w3 : calm w1 w2 → calm w2 w3 → calm w1 w3.
Proof.
  intros (A1 & A2 & A3 & A4 & A5) (B1 & B2 & B3 & B4 & B5).
  split; [congruence|]. split; [congruence|]. split; [congruence|].
  split; [by eapply same_tree_trans | auto].
Qed.

(** Whatever leaves the element store, the document, the body, the handles
    and the listeners alone is calm. *)
Lemma calm_fields w w' :
  elems w' = elems w → document w' = document w → body w' = body w →
  toggle w' = toggle w → nav w' = nav w → listeners w' = listeners w →
  calm w w'.
Proof.
  intros E D B T N L. split; [done|]. split; [done|]. split; [done|].
  split.
  - split; [done|]. split; [done|]. split; [by rewrite E|].
    split; intros y; by rewrite (element_elems w' w).
  - intros y. unfold stored. by rewrite E.
Qed.

Lemma calm_upd x f w :
  stored w x →
  (∀ e, parentNode (f e) = parentNode e) → (∀ e, focusable (f e) = focusable e) →
  calm w (upd x f w).
Proof.
  intros Hs Hp Hf. split; [done|]. split; [done|]. split; [done|]. split.
  - split; [done|]. split; [done|]. split.
    + change (elems (upd x f w)) with (<[x := f (element w x)]> (elems w)).
      by apply map_size_insert_Some.
    + split; intros y; [by apply parentNode_upd | by apply focusable_upd].
  - intros y. apply upd_in_store.
Qed.

Lemma wired_calm t n links w w' : wired t n links w → calm w w' → wired t n links w'.
Proof.
  intros (H1 & H2 & H3 & H4 & H5 & H6) (C1 & C2 & C3 & (_ & Cb & _) & C5).
  unfold wired. rewrite C1, C2, C3, Cb. auto 10.
Qed.

Lemma path_of_same_tree w w' x : same_tree w w' → path_of w' x = path_of w x.
Proof.
  intros (_ & _ & Hs & Hp & _). unfold path_of. rewrite Hs.
  apply ancestors_ext. intros y. apply Hp.
Qed.

Lemma inside_same_tree w w' a tgt : same_tree w w' → inside w' a tgt = inside w a tgt.
Proof.
  intros H. destruct tgt as [x| |]; [|done..].
  unfold inside, node_contains. by rewrite (path_of_same_tree w w').
Qed.

Lemma can_focus_same_tree w w' x : same_tree w w' → can_focus w' x = can_focus w x.
Proof. intros (Hd & _ & _ & _ & Hf). unfold can_focus. by rewrite Hd, Hf. Qed.

Lemma calm_mark_closed t n w :
  stored w t → stored w n → stored w (body w) → calm w (mark_closed t n w).
Proof.
  intros Ht Hn Hb. unfold mark_closed.
  assert (C0 : calm w (set_isOpen false w)) by (by apply calm_fields).
  assert (C1 : calm w (upd n (el_remove_class CONFIG.classes.active) (set_isOpen false w))).
  { eapply calm_trans; [exact C0|]. by apply calm_upd. }
  assert (C2 : calm w (upd (body w) (el_remove_class CONFIG.classes.menuOpen)
                     (upd n (el_remove_class CONFIG.classes.active) (set_isOpen false w)))).
  { eapply calm_trans; [exact C1|]. apply calm_upd; [|done..].
    by apply (proj2 (proj2 (proj2 (proj2 C1)))). }
  assert (C3 : calm w (upd t (el_set_attr CONFIG.aria.expanded "false")
                (upd (body w) (el_remove_class CONFIG.classes.menuOpen)
                     (upd n (el_remove_class CONFIG.classes.active) (set_isOpen false w))))).
  { eapply calm_trans; [exact C2|]. apply calm_upd; [|done..].
    by apply (proj2 (proj2 (proj2 (proj2 C2)))). }
  eapply calm_trans; [exact C3|]. apply calm_upd; [|done..].
  by apply (proj2 (proj2 (proj2 (proj2 C3)))).
Qed.

Lemma calm_mark_open t n w :
  stored w t → stored w n → stored w (body w) → calm w (mark_open t n w).
Proof.
  intros Ht Hn Hb. unfold mark_open.
  assert (C0 : calm w (set_isOpen true w)) by (by apply calm_fields).
  assert (C1 : calm w (upd n (el_add_class CONFIG.classes.active) (set_isOpen true w))).
  { eapply calm_trans; [exact C0|]. by apply calm_upd. }
  assert (C2 : calm w (upd (body w) (el_add_class CONFIG.classes.menuOpen)
                     (upd n (el_add_class CONFIG.classes.active) (set_isOpen true w)))).
  { eapply calm_trans; [exact C1|]. apply calm_upd; [|done..].
    by apply (proj2 (proj2 (proj2 (proj2 C1)))). }
  assert (C3 : calm w (upd t (el_set_attr CONFIG.aria.expanded "true")
                (upd (body w) (el_add_class CONFIG.classes.menuOpen)
                     (upd n (el_add_class CONFIG.classes.active) (set_isOpen true w))))).
  { eapply calm_trans; [exact C2|]. apply calm_upd; [|done..].
    by apply (proj2 (proj2 (proj2 (proj2 C2)))). }
  eapply calm_trans; [exact C3|]. apply calm_upd; [|done..].
  by apply (proj2 (proj2 (proj2 (proj2 C3)))).
Qed.

Lemma calm_closeMenu t n links w :
  wired t n links w → calm w (exec navigation.closeMenu w).
Proof.
  intros (Ht & Hn & _ & S1 & S2 & S3). unfold exec.
  rewrite (closeMenu_run w t n Ht Hn). by apply calm_mark_closed.
Qed.

Lemma calm_openMenu t n links w :
  wired t n links w → calm w (exec navigation.openMenu w).
Proof.
  intros (Ht & Hn & _ & S1 & S2 & S3). unfold exec.
  rewrite (openMenu_run w t n Ht Hn). cbn [snd].
  eapply calm_trans; [by apply (calm_mark_open t n)|].
  unfold schedule_focus. destruct (first_link _ _); [by apply calm_fields | apply calm_refl].
Qed.

Lemma calm_focus x w : calm w (exec (focus x) w).
Proof.
  unfold focus, modify, exec. cbn [snd].
  by destruct (can_focus w x); apply calm_fields.
Qed.

(** ** Listeners, callbacks and the event loop keep the setup *)

Lemma calm_wired_trans t n links w w1 w2 :
  wired t n links w → calm w w1 → (wired t n links w1 → calm w1 w2) →
  calm w w2.
Proof.
  intros Hw C1 C2. eapply calm_trans; [exact C1|]. apply C2.
  by eapply wired_calm.
Qed.

Lemma calm_toggleMenu t n links w :
  wired t n links w → calm w (exec navigation.toggleMenu w).
Proof.
  intros Hw. unfold exec. rewrite toggleMenu_run.
  assert (Hb : ∀ b : bool,
    calm w ((if b then navigation.closeMenu w else navigation.openMenu w).2)).
  { intros []; [by eapply calm_closeMenu | by eapply calm_openMenu]. }
  apply Hb.
Qed.

Lemma calm_clearTimeout o w : calm w (exec (clearTimeout o) w).
Proof. destruct o; by apply calm_fields. Qed.

Lemma calm_executedFunction wait w : calm w (exec (utils.executedFunction wait) w).
Proof.
  destruct w as [? ? ? ? ? ? ? ? tmo ? ? ? ? ? ? ?].
  destruct tmo; by apply calm_fields.
Qed.

Lemma calm_on_link_keydown links index e w :
  calm w (exec (navigation.on_link_keydown links index e) w).
Proof.
  unfold navigation.on_link_keydown, exec, bind, preventDefault, modify, focus, deref.
  destruct (_ || _); cbn.
  - destruct (or_else _ _); cbn; [|by apply calm_fields].
    destruct (can_focus _ _); by apply calm_fields.
  - destruct (_ || _); cbn; [|by apply calm_fields].
    destruct (or_else _ _); cbn; [|by apply calm_fields].
    destruct (can_focus _ _); by apply calm_fields.
Qed.

Lemma resize_check_cases w :
  exec navigation.resize_check w = exec navigation.closeMenu w ∨
  exec navigation.resize_check w = w.
Proof.
  destruct w as [? ? ? ? iw ? ? io ? ? ? ? ? ? ? ?].
  unfold navigation.resize_check, and_then, utils.isMobile, exec, bind, gets, ret.
  cbn. destruct (iw <? _)%Z; cbn; [by right|].
  destruct io; [by left | by right].
Qed.

(** Every listener of the script leaves the handles, the listeners and the
    tree as they are. *)
Lemma handle_calm t n links h e w :
  wired t n links w → calm w (exec (handle h e) w).
Proof.
  intros Hw. pose proof Hw as (Ht & Hn & _).
  destruct h as [| | | | |ls index]; cbn [handle].
  - change (exec (navigation.on_toggle_click e) w)
      with (exec navigation.toggleMenu (set_propagationStopped true w)).
    eapply (calm_wired_trans t n links w (set_propagationStopped true w));
      [exact Hw | by apply calm_fields|].
    intros Hw'. by eapply calm_toggleMenu.
  - unfold exec. rewrite on_link_click_run.
    destruct (_ <? _)%Z; [by eapply calm_closeMenu | apply calm_refl].
  - unfold exec. rewrite (on_document_click_run w e t n Ht Hn).
    destruct (_ && _); [by eapply calm_closeMenu | apply calm_refl].
  - unfold exec at 1. rewrite (on_document_keydown_run w e t n Ht Hn).
    destruct (_ && _); [|apply calm_refl]. cbn [snd].
    eapply calm_trans; [by eapply calm_closeMenu | apply calm_focus].
  - apply calm_executedFunction.
  - apply calm_on_link_keydown.
Qed.

Lemma run_callback_calm t n links cb w :
  wired t n links w → calm w (exec (run_callback cb) w).
Proof.
  intros Hw. destruct cb as [l|]; cbn [run_callback]; [apply calm_focus|].
  rewrite later_run.
  eapply (calm_wired_trans t n links w (exec (clearTimeout (timeout w)) w));
    [exact Hw | apply calm_clearTimeout|].
  intros Hw'. destruct (resize_check_cases (exec (clearTimeout (timeout w)) w)) as [-> | ->];
    [by eapply calm_closeMenu | apply calm_refl].
Qed.

Lemma run_timers_calm t n links fuel limit w :
  wired t n links w → calm w (run_timers fuel limit w).
Proof.
  revert w. induction fuel as [|fuel IH]; intros w Hw; [apply calm_refl|].
  cbn [run_timers]. destruct (next_due limit (timers w)) as [x|]; [|apply calm_refl].
  rewrite fire_run.
  assert (C1 : calm w (dequeue x w)) by (by apply calm_fields).
  assert (C2 : calm w (exec (run_callback (callback x)) (dequeue x w))).
  { eapply (calm_wired_trans t n links); [exact Hw | exact C1|].
    intros Hw'. by eapply run_callback_calm. }
  eapply (calm_wired_trans t n links); [exact Hw | exact C2 | apply IH].
Qed.

(** ** Invariants of a dispatch *)

Lemma invoke_exec_cons l ls e w :
  exec (invoke (l :: ls) e) w = exec (invoke ls e) (exec (handle (l_handler l) e) w).
Proof. reflexivity. Qed.

(** What every listener of the list keeps holds when the list has run. *)
Lemma invoke_inv (I : World → Prop) ls e w :
  (∀ l w', l ∈ ls → I w' → I (exec (handle (l_handler l) e) w')) →
  I w → I (exec (invoke ls e) w).
Proof.
  revert w. induction ls as [|l ls IH]; intros w Hl Hw; [exact Hw|].
  rewrite invoke_exec_cons. apply IH.
  - intros l' w' Hin. apply Hl. by right.
  - apply Hl; [by left | exact Hw].
Qed.

Lemma propagate_exec_cons cur path e w :
  exec (propagate (cur :: path) e) w =
  if propagationStopped (exec (invoke (listeners_for cur (ev_type e) (listeners w)) e) w)
  then exec (invoke (listeners_for cur (ev_type e) (listeners w)) e) w
  else exec (propagate path e)
         (exec (invoke (listeners_for cur (ev_type e) (listeners w)) e) w).
Proof.
  cbn [propagate]. unfold exec, bind, gets. cbn beta iota.
  destruct (invoke_runs (listeners_for cur (ev_type e) (listeners w)) e w) as [I1 _].
  destruct (invoke _ e w) as [r w1] eqn:E. cbn in I1. subst r. cbn [snd].
  assert (Hb : ∀ b : bool,
    ((if b then ret tt else propagate path e) w1).2
    = if b then w1 else (propagate path e w1).2) by (by intros []).
  apply Hb.
Qed.

Lemma listeners_for_elem l cur ty ls :
  l ∈ listeners_for cur ty ls ↔ l ∈ ls ∧ l_target l = cur ∧ l_type l = ty.
Proof.
  unfold listeners_for. rewrite !list_elem_of_In, List.filter_In, andb_true_iff,
    !bool_decide_eq_true. tauto.
Qed.

(** What every registered listener on the path keeps holds when the event
    has travelled the path, however far it got. *)
Lemma propagate_inv (I : World → Prop) (L : list Listener) path e w :
  (∀ w', I w' → listeners w' = L) →
  (∀ l w', l ∈ L → l_target l ∈ path → l_type l = ev_type e →
           I w' → I (exec (handle (l_handler l) e) w')) →
  I w → I (exec (propagate path e) w).
Proof.
  intros HL. revert w. induction path as [|cur path IH]; intros w Hl Hw; [exact Hw|].
  rewrite propagate_exec_cons. rewrite (HL w Hw).
  set (w1 := exec (invoke (listeners_for cur (ev_type e) L) e) w).
  assert (H1 : I w1).
  { apply invoke_inv; [|exact Hw]. intros l w' Hin.
    apply listeners_for_elem in Hin as (Hin & Htg & Hty).
    apply Hl; [exact Hin | rewrite Htg; by left | exact Hty]. }
  assert (Hb : ∀ b : bool, I (if b then w1 else exec (propagate path e) w1)).
  { intros []; [exact H1|]. apply IH; [|exact H1].
    intros l w' Hin Htg. apply Hl; [exact Hin | by right]. }
  apply Hb.
Qed.

(** The event travels the first part of a path, then, unless a listener
    there stopped it, the rest. *)
Lemma propagate_app p1 p2 e w :
  propagationStopped w = false →
  exec (propagate (p1 ++ p2) e) w =
  if propagationStopped (exec (propagate p1 e) w)
  then exec (propagate p1 e) w
  else exec (propagate p2 e) (exec (propagate p1 e) w).
Proof.
  revert w. induction p1 as [|cur p1 IH]; intros w Hs.
  - cbn [app]. change (exec (propagate [] e) w) with w. by rewrite Hs.
  - cbn [app]. rewrite !propagate_exec_cons.
    set (w1 := exec (invoke _ e) w).
    destruct (propagationStopped w1) eqn:E1; [by rewrite E1|].
    by apply IH.
Qed.

Lemma dispatchEvent_run e w :
  exec (dispatchEvent e) w = exec (propagate (event_path w e) e) (fresh_event w).
Proof. reflexivity. Qed.

Lemma propagate_calm t n links path e w :
  wired t n links w → calm w (exec (propagate path e) w).
Proof.
  intros Hw.
  apply (propagate_inv (λ w', wired t n links w' ∧ calm w w') (wiring t links)).
  - by intros w' [(_ & _ & HL & _) _].
  - intros l w' _ _ _ [Hw' Hc].
    pose proof (handle_calm t n links (l_handler l) e w' Hw') as Hc'.
    split; [by eapply wired_calm | by eapply calm_trans].
  - split; [exact Hw | apply calm_refl].
Qed.

Lemma dispatchEvent_calm t n links e w :
  wired t n links w → calm w (exec (dispatchEvent e) w).
Proof.
  intros Hw. rewrite dispatchEvent_run.
  eapply (calm_wired_trans t n links w (fresh_event w));
    [exact Hw | by apply calm_fields|].
  intros Hw'. by eapply propagate_calm.
Qed.

Lemma call_calm t n links c w : wired t n links w → calm w (exec (call c) w).
Proof.
  intros Hw. destruct c; cbn [call];
    [by eapply calm_openMenu | by eapply calm_closeMenu | by eapply calm_toggleMenu].
Qed.

(** Whatever happens to the page once it is set up, the handles, the
    listeners and the tree stay. *)
Lemma react_calm t n links w i : wired t n links w → calm w (react w i).
Proof.
  intros Hw. destruct i as [e|x|width|c]; cbn [react].
  - by eapply dispatchEvent_calm.
  - unfold advance_to.
    eapply calm_trans; [by eapply run_timers_calm | by apply calm_fields].
  - change (exec (resize_to width) w)
      with (exec (dispatchEvent (mkEvent Resize OnWindow EmptyString)) (set_innerWidth width w)).
    eapply (calm_wired_trans t n links w (set_innerWidth width w));
      [exact Hw | by apply calm_fields|].
    intros Hw'. by eapply dispatchEvent_calm.
  - by eapply call_calm.
Qed.

Lemma run_calm t n links inputs w :
  wired t n links w → calm w (fold_left react inputs w).
Proof.
  revert w. induction inputs as [|i inputs IH]; intros w Hw; [apply calm_refl|].
  cbn [fold_left].
  eapply (calm_wired_trans t n links); [exact Hw | by eapply react_calm | apply IH].
Qed.

(** Setup on a fresh page wires the page, and leaves its tree. *)
Lemma init_wired w t n :
  fresh_page w →
  found w CONFIG.selectors.toggle = Some t → found w CONFIG.selectors.nav = Some n →
  wired t n (nav_links w n) (exec navigation.init w) ∧
  same_tree w (exec navigation.init w).
Proof.
  intros [HL Hb] Ht Hn.
  pose proof (found_in_store _ _ _ Ht) as Hst.
  pose proof (found_in_store _ _ _ Hn) as Hsn.
  unfold exec. rewrite (init_found_run w t n Ht Hn). cbn [snd]. rewrite HL.
  set (w1 := set_nav (Some n) (set_toggle (Some t) w)).
  assert (C1 : calm w1 (upd t (el_set_attr CONFIG.aria.expanded "false") w1))
    by (by apply calm_upd).
  assert (C2 : calm w1 (announce_closed t n w1)).
  { eapply calm_trans; [exact C1|]. apply calm_upd; [|done..].
    by apply upd_in_store. }
  destruct C2 as (_ & _ & _ & Htree & Hst').
  split; [|exact Htree].
  repeat split; try done.
  - by apply Hst'.
  - by apply Hst'.
  - destruct Htree as (_ & Hbody & _).
    change (stored (announce_closed t n w1) (body (announce_closed t n w1))).
    rewrite Hbody. by apply Hst'.
Qed.

(** The page the script has set up stays set up along every run, with the
    tree it was given. *)
Lemma run_settled w0 t n inputs :
  fresh_page w0 →
  found w0 CONFIG.selectors.toggle = Some t → found w0 CONFIG.selectors.nav = Some n →
  wired t n (nav_links w0 n) (fold_left react inputs (exec navigation.init w0)) ∧
  same_tree w0 (fold_left react inputs (exec navigation.init w0)).
Proof.
  intros Hf Ht Hn. destruct (init_wired w0 t n Hf Ht Hn) as [Hw Htree].
  pose proof (run_calm _ _ _ inputs _ Hw) as Hc.
  split; [by eapply wired_calm|].
  eapply same_tree_trans; [exact Htree|]. apply Hc.
Qed.

(** ** The listeners of setup, one by one *)

Lemma wiring_elem t links l :
  l ∈ wiring t links →
  l = mkListener (OnNode t) Click ToggleClick ∨
  (∃ x, x ∈ links ∧ l = mkListener (OnNode x) Click LinkClick) ∨
  l = mkListener OnDocument Click DocumentClick ∨
  l = mkListener OnDocument Keydown DocumentKeydown ∨
  l = mkListener OnWindow Resize WindowResize ∨
  (∃ i x, links !! i = Some x ∧ l = mkListener (OnNode x) Keydown (LinkKeydown links i)).
Proof.
  unfold wiring. rewrite !elem_of_app, list_elem_of_fmap, elem_of_lookup_imap,
    !elem_of_cons, !elem_of_nil.
  intros [[->|[]] | [(x & -> & Hx) | [[->|[->|[->|[]]]] | (i & x & -> & Hx)]]]; eauto 10.
Qed.

Lemma wiring_link_click t links x :
  x ∈ links → mkListener (OnNode x) Click LinkClick ∈ wiring t links.
Proof.
  intros Hx. unfold wiring. rewrite !elem_of_app, list_elem_of_fmap. right. left. eauto.
Qed.


(** The document has one keydown listener, the window none; neither has it
    from a link. *)
Lemma listeners_for_document_keydown t links :
  listeners_for OnDocument Keydown (wiring t links)
  = [mkListener OnDocument Keydown DocumentKeydown].
Proof.
  unfold listeners_for, wiring. rewrite !List.filter_app.
  rewrite (filter_none _ (_ <$> links)), (filter_none _ (imap _ links)); [done|..].
  - intros l Hl. apply list_elem_of_In, elem_of_lookup_imap in Hl as (i & x & -> & _). done.
  - intros l Hl. apply list_elem_of_In, list_elem_of_fmap in Hl as (x & -> & _). done.
Qed.

Lemma listeners_for_window_keydown t links :
  listeners_for OnWindow Keydown (wiring t links) = [].
Proof.
  unfold listeners_for. apply filter_none. intros l Hl.
  apply list_elem_of_In, wiring_elem in Hl
    as [->|[(x & _ & ->)|[->|[->|[->|(i & x & _ & ->)]]]]]; done.
Qed.

(** Among links without repetition the link at index i has one keydown
    listener, the one registered with i. *)
Lemma imap_filter_none (g : nat → node → Listener) (links : list node) (l : node) :
  (∀ j y, l_target (g j y) = OnNode y) → l ∉ links →
  List.filter (λ x, bool_decide (l_target x = OnNode l) && bool_decide (l_type x = Keydown))
    (imap g links) = [].
Proof.
  intros Hg Hl. apply filter_none. intros x Hx.
  apply list_elem_of_In, elem_of_lookup_imap in Hx as (j & y & -> & Hy).
  rewrite Hg. rewrite bool_decide_eq_false_2; [done|].
  intros [= ->]. apply Hl. by eapply list_elem_of_lookup_2.
Qed.

Lemma imap_filter_one (g : nat → node → Listener) (links : list node) (l : node) (i : nat) :
  (∀ j y, l_target (g j y) = OnNode y) → (∀ j y, l_type (g j y) = Keydown) →
  NoDup links → links !! i = Some l →
  List.filter (λ x, bool_decide (l_target x = OnNode l) && bool_decide (l_type x = Keydown))
    (imap g links) = [g i l].
Proof.
  revert g i. induction links as [|y links IH]; intros g i Hg Hty Hnd Hi; [done|].
  apply NoDup_cons in Hnd as [Hy Hnd].
  cbn [imap List.filter]. rewrite Hg, Hty.
  destruct i as [|i]; cbn in Hi.
  - injection Hi as ->.
    rewrite !bool_decide_eq_true_2 by done. cbn [andb]. f_equal.
    apply imap_filter_none; [|exact Hy]. intros j z. apply Hg.
  - assert (y ≠ l).
    { intros ->. apply Hy. by eapply list_elem_of_lookup_2. }
    rewrite (bool_decide_eq_false_2 (OnNode y = OnNode l)) by congruence. cbn [andb].
    apply (IH (g ∘ S) i); [intros j z; apply Hg | intros j z; apply Hty | done | done].
Qed.

Lemma listeners_for_link_keydown t links l i :
  NoDup links → links !! i = Some l →
  listeners_for (OnNode l) Keydown (wiring t links)
  = [mkListener (OnNode l) Keydown (LinkKeydown links i)].
Proof.
  intros Hnd Hi. unfold listeners_for, wiring. rewrite !List.filter_app.
  rewrite (filter_none _ (_ <$> links)).
  - rewrite (imap_filter_one _ links l i) by done.
    cbn. by rewrite andb_false_r.
  - intros x Hx. apply list_elem_of_In, list_elem_of_fmap in Hx as (y & -> & _).
    cbn. apply andb_false_r.
Qed.

(** ** The path of an event *)

Lemma path_of_head w x : ∃ rest, path_of w x = x :: rest ∧ rest = tail (path_of w x).
Proof. unfold path_of. cbn [ancestors]. eexists. split; reflexivity. Qed.

Lemma below_document_inside w target cur :
  cur ∈ below_document w target → ∃ y, cur = OnNode y ∧ inside w y target = true.
Proof.
  destruct target as [x| |]; cbn [below_document]; [|by intros ?%elem_of_nil..].
  intros (y & -> & Hy)%list_elem_of_fmap. exists y. split; [done|].
  cbn [inside]. unfold node_contains. by apply bool_decide_eq_true.
Qed.

Lemma event_path_split w e :
  ev_target e ≠ OnWindow → ev_type e ≠ Resize →
  event_path w e = below_document w (ev_target e) ++ [OnDocument; OnWindow].
Proof.
  intros Htg Hty. unfold event_path, below_document.
  destruct (ev_target e); [|done..].
  by destruct (ev_type e).
Qed.

Lemma apart_spec w links l l' :
  apart w links l = true → l' ∈ links → l' ∉ tail (path_of w l).
Proof.
  unfold apart. rewrite forallb_forall. intros H Hin.
  specialize (H l' (proj1 (list_elem_of_In _ _) Hin)).
  apply negb_true_iff, bool_decide_eq_false in H. exact H.
Qed.

Lemma apart_same_tree w w' links l :
  same_tree w w' → apart w' links l = apart w links l.
Proof. intros H. unfold apart. by rewrite (path_of_same_tree w w'). Qed.

Lemma nav_links_inside w n l : l ∈ nav_links w n → node_contains w n l = true.
Proof.
  unfold nav_links. rewrite list_elem_of_In, List.filter_In.
  intros [_ H]. unfold matches in H. cbn in H.
  apply andb_true_iff in H as [_ H]. by apply andb_true_iff in H as [_ H].
Qed.

Lemma nav_links_NoDup w n : NoDup (document w) → NoDup (nav_links w n).
Proof.
  rewrite !NoDup_ListNoDup. apply List.NoDup_filter.
Qed.

(** ** What a dispatched event does on the page that is set up *)

Lemma wired_fresh_event t n links w : wired t n links w → wired t n links (fresh_event w).
Proof. intros Hw. eapply wired_calm; [exact Hw | by apply calm_fields]. Qed.

Lemma wired_handle t n links h e w :
  wired t n links w → wired t n links (exec (handle h e) w).
Proof. intros Hw. eapply wired_calm; [exact Hw | by eapply handle_calm]. Qed.

(** Every element on the path of an event contains the target. *)
Lemma event_path_node w e y :
  OnNode y ∈ event_path w e → inside w y (ev_target e) = true.
Proof.
  unfold event_path. destruct (ev_target e) as [x| |].
  - rewrite elem_of_app. intros [H|H].
    + apply list_elem_of_fmap in H as (z & [= ->] & Hz).
      cbn [inside]. unfold node_contains. by apply bool_decide_eq_true.
    + destruct (ev_type e); [| |by apply elem_of_nil in H];
        apply elem_of_cons in H as [H|H]; try done;
        apply elem_of_cons in H as [H|H]; try done; by apply elem_of_nil in H.
  - intros H. apply elem_of_cons in H as [H|H]; [done|].
    apply elem_of_cons in H as [H|H]; [done|]. by apply elem_of_nil in H.
  - intros H. apply elem_of_cons in H as [H|H]; [done|]. by apply elem_of_nil in H.
Qed.

(** When the first listener of a list reaches J and every listener keeps
    J, the list reaches J. *)
Lemma invoke_reaches (J : World → Prop) ls e w :
  ls ≠ [] →
  (∀ l, l ∈ ls → J (exec (handle (l_handler l) e) w)) →
  (∀ l w', l ∈ ls → J w' → J (exec (handle (l_handler l) e) w')) →
  J (exec (invoke ls e) w).
Proof.
  destruct ls as [|l ls]; [done|]. intros _ H1 H2.
  rewrite invoke_exec_cons. apply invoke_inv.
  - intros l' w' Hin. apply H2. by right.
  - apply H1. by left.
Qed.

Lemma link_click_exec e w :
  exec (handle LinkClick e) w =
  if (innerWidth w <? CONFIG.breakpoints.mobile)%Z then exec navigation.closeMenu w else w.
Proof.
  unfold exec. cbn [handle]. rewrite on_link_click_run. by destruct (_ <? _)%Z.
Qed.

Lemma document_click_exec t n links e w :
  wired t n links w →
  exec (handle DocumentClick e) w =
  if isOpen w && negb (inside w t (ev_target e)) && negb (inside w n (ev_target e))
  then exec navigation.closeMenu w else w.
Proof.
  intros (Ht & Hn & _). unfold exec. cbn [handle].
  rewrite (on_document_click_run w e t n Ht Hn). by destruct (_ && _).
Qed.

Lemma document_keydown_exec t n links e w :
  wired t n links w →
  exec (handle DocumentKeydown e) w =
  if bool_decide (ev_key e = "Escape") && isOpen w
  then exec (focus t) (exec navigation.closeMenu w) else w.
Proof.
  intros (Ht & Hn & _). unfold exec at 1. cbn [handle].
  rewrite (on_document_keydown_run w e t n Ht Hn). by destruct (_ && _).
Qed.


(** A click listener other than the toggle's leaves a closed menu closed. *)
Lemma click_keeps_closed t n links l e w :
  wired t n links w → l ∈ wiring t links → l_type l = Click →
  l_target l ≠ OnNode t → isOpen w = false →
  isOpen (exec (handle (l_handler l) e) w) = false.
Proof.
  intros Hw Hin Hty Htg Ho.
  apply wiring_elem in Hin as [->|[(x & _ & ->)|[->|[->|[->|(i & x & _ & ->)]]]]];
    try done; cbn [l_handler].
  - rewrite link_click_exec. destruct (_ <? _)%Z; [apply closeMenu_isOpen | exact Ho].
  - rewrite (document_click_exec t n links e w Hw).
    destruct (_ && _); [apply closeMenu_isOpen | exact Ho].
Qed.

Lemma closed_stays_closed t n links path e w :
  ev_type e = Click → wired t n links w → OnNode t ∉ path → isOpen w = false →
  isOpen (exec (propagate path e) w) = false.
Proof.
  intros Hty Hw Ht Ho.
  apply (propagate_inv (λ w', wired t n links w' ∧ isOpen w' = false) (wiring t links)
           path e w).
  - by intros w' [(_ & _ & HL & _) _].
  - intros l w' Hin Htg Hlt [Hw' Ho']. split; [by apply wired_handle|].
    apply (click_keeps_closed t n links); [done | done | congruence | | done].
    intros E. apply Ht. by rewrite <- E.
  - done.
Qed.

(** *** Clicks *)


(** A click inside the container and outside the toggle leaves the page as
    it is when no listener it meets closes the menu: the viewport is wide,
    or the target lies inside no link. *)
Lemma click_inside_keeps t n links e w :
  wired t n links w → ev_type e = Click → isOpen w = true →
  inside w t (ev_target e) = false → inside w n (ev_target e) = true →
  (CONFIG.breakpoints.mobile ≤ innerWidth w)%Z ∨ on_no_link w links (ev_target e) = true →
  exec (dispatchEvent e) w = fresh_event w.
Proof.
  intros Hw Hty Ho Hit Hin Hcase.
  rewrite dispatchEvent_run.
  assert (Hwf : wired t n links (fresh_event w)) by (by apply wired_fresh_event).
  apply (propagate_inv (λ w', w' = fresh_event w) (wiring t links)).
  - intros w' ->. by destruct Hwf as (_ & _ & HL & _).
  - intros l w' Hl Hlt Hlty ->. rewrite Hty in Hlty.
    apply wiring_elem in Hl as [->|[(x & Hx & ->)|[->|[->|[->|(i & x & _ & ->)]]]]];
      try done; cbn [l_handler].
    + apply event_path_node in Hlt. congruence.
    + rewrite link_click_exec.
      destruct Hcase as [Hwide | Hnone].
      * change (innerWidth (fresh_event w)) with (innerWidth w).
        by rewrite (proj2 (Z.ltb_ge _ _) Hwide).
      * apply event_path_node in Hlt. unfold on_no_link in Hnone.
        rewrite forallb_forall in Hnone.
        specialize (Hnone x (proj1 (list_elem_of_In _ _) Hx)).
        rewrite Hlt in Hnone. done.
    + rewrite (document_click_exec t n links e _ Hwf).
      change (inside (fresh_event w) n (ev_target e)) with (inside w n (ev_target e)).
      by rewrite Hin, andb_false_r.
  - done.
Qed.

(** A click on a link on a narrow viewport closes the menu: the link's own
    listener runs first. *)
Lemma click_on_link_closes t n links l e w :
  wired t n links w → ev_type e = Click → ev_target e = OnNode l →
  l ∈ links → node_contains w t l = false →
  (innerWidth w < CONFIG.breakpoints.mobile)%Z →
  isOpen (exec (dispatchEvent e) w) = false.
Proof.
  intros Hw Hty Htg Hl Htl Hnarrow.
  assert (Htp : t ∉ path_of w l).
  { intros H. unfold node_contains in Htl.
    by rewrite bool_decide_eq_true_2 in Htl. }
  rewrite dispatchEvent_run.
  assert (Hp : event_path w e
          = OnNode l :: (OnNode <$> tail (path_of w l)) ++ [OnDocument; OnWindow]).
  { unfold event_path. rewrite Htg, Hty.
    destruct (path_of_head w l) as (rest & Hp & ->). by rewrite Hp at 1. }
  rewrite Hp. clear Hp.
  set (wf := fresh_event w).
  assert (Hwf : wired t n links wf) by (by apply wired_fresh_event).
  rewrite propagate_exec_cons.
  pose proof Hwf as (_ & _ & HLf & _). rewrite HLf, Hty.
  set (ls := listeners_for (OnNode l) Click (wiring t links)).
  set (w1 := exec (invoke ls e) wf).
  assert (H1 : wired t n links w1 ∧ isOpen w1 = false).
  { apply (invoke_reaches (λ w', wired t n links w' ∧ isOpen w' = false)).
    - intros E.
      assert (Hd : mkListener (OnNode l) Click LinkClick ∈ ls).
      { apply listeners_for_elem. split; [by apply wiring_link_click | done]. }
      rewrite E in Hd. by apply elem_of_nil in Hd.
    - intros x Hx. apply listeners_for_elem in Hx as (Hx & Hxt & Hxty).
      split; [by apply wired_handle|].
      apply wiring_elem in Hx as [->|[(y & _ & ->)|[->|[->|[->|(i & y & _ & ->)]]]]];
        try done; cbn [l_handler].
      + cbn in Hxt. injection Hxt as ->. exfalso. apply Htp.
        destruct (path_of_head w l) as (rest & Hp & _). rewrite Hp. by left.
      + rewrite link_click_exec.
        change (innerWidth wf) with (innerWidth w).
        rewrite (proj2 (Z.ltb_lt _ _) Hnarrow). apply closeMenu_isOpen.
    - intros x w' Hx [Hw' Ho']. apply listeners_for_elem in Hx as (Hx & Hxt & Hxty).
      split; [by apply wired_handle|].
      apply (click_keeps_closed t n links); [done | done | done | | done].
      rewrite Hxt. intros [= ->]. apply Htp.
      destruct (path_of_head w t) as (rest & Hp & _). rewrite Hp. by left. }
  destruct H1 as [Hw1 Ho1].
  assert (Hb : ∀ b : bool,
    isOpen (if b then w1
            else exec (propagate ((OnNode <$> tail (path_of w l)) ++ [OnDocument; OnWindow]) e)
                      w1) = false).
  { intros []; [exact Ho1|].
    apply (closed_stays_closed t n links); [done | done | | done].
    rewrite elem_of_app. intros [H|H].
    - apply list_elem_of_fmap in H as (z & [= <-] & Hz). apply Htp.
      destruct (path_of_head w l) as (rest & Hp & ->). rewrite Hp. by right.
    - apply elem_of_cons in H as [H|H]; [done|].
      apply elem_of_cons in H as [H|H]; [done | by apply elem_of_nil in H]. }
  apply Hb.
Qed.

(** *** Keys *)

(** The key listener of a link does nothing on a key that is no arrow. *)
Lemma on_link_keydown_other_key links index e w :
  ev_key e = "Escape" →
  navigation.on_link_keydown links index e w = (Ok tt, w).
Proof. intros Hk. unfold navigation.on_link_keydown. by rewrite Hk. Qed.

Lemma propagate_document_keydown t n links e w :
  wired t n links w → ev_type e = Keydown →
  exec (propagate [OnDocument; OnWindow] e) w = exec (handle DocumentKeydown e) w.
Proof.
  intros Hw Hty. rewrite propagate_exec_cons.
  pose proof Hw as (_ & _ & HL & _). rewrite HL, Hty, listeners_for_document_keydown.
  rewrite invoke_exec_cons. cbn [l_handler].
  change (exec (invoke [] e) (exec (handle DocumentKeydown e) w))
    with (exec (handle DocumentKeydown e) w).
  set (w2 := exec (handle DocumentKeydown e) w).
  assert (Hw2 : wired t n links w2) by (by apply wired_handle).
  rewrite propagate_exec_cons.
  pose proof Hw2 as (_ & _ & HL2 & _). rewrite HL2, Hty, listeners_for_window_keydown.
  change (exec (invoke [] e) w2) with w2.
  change (exec (propagate [] e) w2) with w2.
  assert (Hb : ∀ b b' : bool, (if b then w2 else if b' then w2 else w2) = w2)
    by (by intros [] []).
  apply Hb.
Qed.

(** The Escape key reaches the document's listener, and on its way no other
    listener does anything. *)
Lemma escape_reaches_document t n links e w :
  wired t n links w → ev_type e = Keydown → ev_key e = "Escape" →
  ev_target e ≠ OnWindow →
  exec (dispatchEvent e) w = exec (handle DocumentKeydown e) (fresh_event w).
Proof.
  intros Hw Hty Hk Htg.
  rewrite dispatchEvent_run.
  rewrite event_path_split by (done || (rewrite Hty; done)).
  set (wf := fresh_event w).
  assert (Hwf : wired t n links wf) by (by apply wired_fresh_event).
  rewrite propagate_app by done.
  assert (E1 : exec (propagate (below_document w (ev_target e)) e) wf = wf).
  { apply (propagate_inv (λ w', w' = wf) (wiring t links)).
    - intros w' ->. by destruct Hwf as (_ & _ & HL & _).
    - intros l w' Hl Hlt Hlty ->. rewrite Hty in Hlty.
      apply below_document_inside in Hlt as (y & Hy & _).
      apply wiring_elem in Hl as [->|[(x & _ & ->)|[->|[->|[->|(i & x & _ & ->)]]]]];
        try done; cbn [l_handler handle].
      unfold exec. by rewrite on_link_keydown_other_key.
    - done. }
  rewrite E1. change (propagationStopped wf) with false. cbn iota.
  by apply (propagate_document_keydown t n links).
Qed.

(** A key other than Escape on a link runs the key listener of that link,
    once, and nothing else: the links are distinct and not nested. *)
Lemma key_on_link t n links l i e w :
  wired t n links w → NoDup links → links !! i = Some l → apart w links l = true →
  ev_type e = Keydown → ev_target e = OnNode l → ev_key e ≠ "Escape" →
  exec (dispatchEvent e) w = exec (navigation.on_link_keydown links i e) (fresh_event w).
Proof.
  intros Hw Hnd Hi Hap Hty Htg Hk.
  rewrite dispatchEvent_run.
  assert (Hp : event_path w e
          = OnNode l :: (OnNode <$> tail (path_of w l)) ++ [OnDocument; OnWindow]).
  { unfold event_path. rewrite Htg, Hty.
    destruct (path_of_head w l) as (rest & Hp & ->). by rewrite Hp at 1. }
  rewrite Hp. clear Hp.
  set (wf := fresh_event w).
  assert (Hwf : wired t n links wf) by (by apply wired_fresh_event).
  rewrite propagate_exec_cons.
  pose proof Hwf as (_ & _ & HLf & _).
  rewrite HLf, Hty, (listeners_for_link_keydown t links l i Hnd Hi).
  rewrite invoke_exec_cons. cbn [l_handler].
  change (exec (invoke [] e) (exec (handle (LinkKeydown links i) e) wf))
    with (exec (navigation.on_link_keydown links i e) wf).
  set (w1 := exec (navigation.on_link_keydown links i e) wf).
  assert (Hw1 : wired t n links w1).
  { eapply wired_calm; [exact Hwf | apply calm_on_link_keydown]. }
  assert (E : exec (propagate ((OnNode <$> tail (path_of w l)) ++ [OnDocument; OnWindow]) e) w1
              = w1).
  { apply (propagate_inv (λ w', w' = w1) (wiring t links)).
    - intros w' ->. by destruct Hw1 as (_ & _ & HL & _).
    - intros x w' Hx Hxt Hxty ->. rewrite Hty in Hxty.
      apply wiring_elem in Hx as [->|[(y & _ & ->)|[->|[->|[->|(j & y & Hy & ->)]]]]];
        try done; cbn [l_handler].
      + rewrite (document_keydown_exec t n links e w1 Hw1).
        by rewrite bool_decide_eq_false_2.
      + exfalso. cbn [l_target] in Hxt.
        apply elem_of_app in Hxt as [H|H].
        * apply list_elem_of_fmap in H as (z & [= <-] & Hz).
          apply (apart_spec w links l y Hap); [by eapply list_elem_of_lookup_2 | exact Hz].
        * apply elem_of_cons in H as [H|H]; [done|].
          apply elem_of_cons in H as [H|H]; [done | by apply elem_of_nil in H].
    - done. }
  rewrite E. by destruct (propagationStopped w1).
Qed.

Lemma menu_state_same_menu w w' : same_menu w w' → menu_state w' = menu_state w.
Proof.
  intros (E & Ho & Ht & Hn & Hb). unfold menu_state. rewrite Ho, Ht, Hn, Hb.
  destruct (toggle w), (nav w); try done.
  by rewrite !(has_class_elems _ _ _ _ E), !(attribute_elems _ _ _ _ E).
Qed.

(** No key but Escape changes an element or isOpen, whatever its target. *)
Lemma key_keeps_menu t n links e w :
  wired t n links w → ev_type e = Keydown → ev_key e ≠ "Escape" →
  same_menu w (exec (dispatchEvent e) w).
Proof.
  intros Hw Hty Hk. rewrite dispatchEvent_run.
  assert (Hwf : wired t n links (fresh_event w)) by (by apply wired_fresh_event).
  apply (propagate_inv (λ w', wired t n links w' ∧ same_menu w w') (wiring t links)).
  - by intros w' [(_ & _ & HL & _) _].
  - intros x w' Hx _ Hxty [Hw' Hs]. split; [by apply wired_handle|].
    rewrite Hty in Hxty.
    apply wiring_elem in Hx as [->|[(y & _ & ->)|[->|[->|[->|(j & y & Hy & ->)]]]]];
      try done; cbn [l_handler].
    + rewrite (document_keydown_exec t n links e w' Hw').
      by rewrite bool_decide_eq_false_2.
    + eapply same_menu_trans; [exact Hs|].
      destruct (on_link_keydown_frame links j e w') as (? & ? & ? & ? & ?).
      by repeat split.
  - split; [exact Hwf | done].
Qed.

(** * The triggers, as the browser delivers them

    The worlds of these theorems are those the page reaches after
    navigation.init has run on a fresh page that holds the toggle and the
    container: whatever events were dispatched since, however the clock
    ran, the window was resized or the operations were called.  The events
    go through dispatchEvent, to the listeners that init registered. *)

Lemma page_is_fresh : fresh_page page.
Proof. split; [reflexivity|]. unfold stored. vm_compute. by eexists. Defined.




(** C3.  With the menu open, a click on a link inside the container closes
    the menu when the viewport is narrower than 768, and changes nothing
    when it is 768 wide or more.  The toggle is not an ancestor of the
    link. *)
Theorem link_click_closes_on_mobile (w0 : World) (t n l : node)
    (inputs : list Input) (key : string) :
  fresh_page w0 →
  found w0 CONFIG.selectors.toggle = Some t →
  found w0 CONFIG.selectors.nav = Some n →
  l ∈ nav_links w0 n →
  node_contains w0 t l = false →
  let w := fold_left react inputs (exec navigation.init w0) in
  let w' := exec (dispatchEvent (mkEvent Click (OnNode l) key)) w in
  isOpen w = true →
  ((innerWidth w < CONFIG.breakpoints.mobile)%Z → isOpen w' = false) ∧
  ((CONFIG.breakpoints.mobile ≤ innerWidth w)%Z →
   isOpen w' = true ∧ w' = fresh_event w).
Proof.
  intros Hf Ht Hn Hl Htl w w' Ho.
  destruct (run_settled w0 t n inputs Hf Ht Hn) as [Hw Htree]. fold w in Hw, Htree.
  assert (Htl' : inside w t (OnNode l) = false).
  { rewrite (inside_same_tree w0 w) by done. exact Htl. }
  assert (Hnl : inside w n (OnNode l) = true).
  { rewrite (inside_same_tree w0 w) by done. by apply nav_links_inside. }
  split.
  - intros Hnarrow. by apply (click_on_link_closes t n (nav_links w0 n) l).
  - intros Hwide.
    assert (E : w' = fresh_event w).
    { apply (click_inside_keeps t n (nav_links w0 n)); try done. by left. }
    split; [|exact E]. rewrite E. exact Ho.
Qed.

Lemma link_click_closes_on_mobile_witness :
  isOpen (exec (dispatchEvent (mkEvent Click (OnNode 4) EmptyString))
            (fold_left react opening (exec navigation.init page))) = false ∧
  isOpen (exec (dispatchEvent (mkEvent Click (OnNode 4) EmptyString))
            (fold_left react opening_wide (exec navigation.init page))) = true.
Proof.
  assert (Hl : 4 ∈ nav_links page 2).
  { apply list_elem_of_In. vm_compute. tauto. }
  split.
  - destruct (link_click_closes_on_mobile page 1 2 4 opening EmptyString
                page_is_fresh eq_refl eq_refl Hl eq_refl eq_refl) as [H _].
    apply H. reflexivity.
  - destruct (link_click_closes_on_mobile page 1 2 4 opening_wide EmptyString
                page_is_fresh eq_refl eq_refl Hl eq_refl eq_refl) as [_ H].
    apply H. vm_compute. discriminate.
Defined.

(** C4.  With the menu open, the Escape key closes the menu, with all four
    mirrors, and calls focus on the toggle, once: the toggle becomes the
    active element when it is in the document and focusable.  With the menu
    closed the key changes nothing. *)
Theorem escape_closes_and_refocuses (w0 : World) (t n : node)
    (inputs : list Input) (target : Target) :
  fresh_page w0 →
  found w0 CONFIG.selectors.toggle = Some t →
  found w0 CONFIG.selectors.nav = Some n →
  target ≠ OnWindow →
  let w := fold_left react inputs (exec navigation.init w0) in
  let w' := exec (dispatchEvent (mkEvent Keydown target "Escape")) w in
  (isOpen w = true →
   isOpen w' = false ∧ mirrors_agree w' ∧
   trace w' = trace w ++ [FocusCall t] ∧
   activeElement w' = (if can_focus w t then Some t else activeElement w)) ∧
  (isOpen w = false →
   w' = fresh_event w ∧ isOpen w' = false ∧
   activeElement w' = activeElement w ∧ trace w' = trace w).
Proof.
  intros Hf Ht Hn Htg w w'.
  destruct (run_settled w0 t n inputs Hf Ht Hn) as [Hw _]. fold w in Hw.
  assert (Hwf : wired t n (nav_links w0 n) (fresh_event w))
    by (by apply wired_fresh_event).
  assert (E : w' = exec (handle DocumentKeydown (mkEvent Keydown target "Escape"))
                     (fresh_event w))
    by (by apply (escape_reaches_document t n (nav_links w0 n))).
  rewrite (document_keydown_exec t n (nav_links w0 n) _ _ Hwf) in E.
  change (isOpen (fresh_event w)) with (isOpen w) in E.
  split; intros Ho; rewrite Ho in E; cbn in E.
  - pose proof Hwf as (Htf & Hnf & _).
    set (wc := exec navigation.closeMenu (fresh_event w)) in *.
    assert (Hc : wc = mark_closed t n (fresh_event w)).
    { unfold wc, exec. by rewrite (closeMenu_run _ t n Htf Hnf). }
    destruct (closeMenu_synced (fresh_event w) t n Htf Hnf) as [Hs Hoc].
    fold wc in Hs, Hoc.
    assert (Hcalm : calm w wc).
    { eapply calm_trans; [|by eapply calm_closeMenu]. by apply calm_fields. }
    clearbody w'. subst w'. split; [|split; [|split]].
    + destruct (focus_fields t wc) as (_ & _ & _ & H & _).
      etransitivity; [exact H | exact Hoc].
    + apply synced_mirrors_agree.
      eapply synced_same_menu; [apply focus_same_menu | exact Hs].
    + etransitivity; [apply focus_trace|]. by rewrite Hc.
    + etransitivity; [apply focus_active|].
      rewrite (can_focus_same_tree w wc) by apply Hcalm. by rewrite Hc.
  - clearbody w'. by subst w'.
Qed.

Lemma escape_closes_and_refocuses_witness :
  isOpen (exec (dispatchEvent (mkEvent Keydown (OnNode 3) "Escape"))
            (fold_left react opening (exec navigation.init page))) = false ∧
  activeElement (exec (dispatchEvent (mkEvent Keydown (OnNode 3) "Escape"))
                   (fold_left react opening (exec navigation.init page))) = Some 1 ∧
  exec (dispatchEvent (mkEvent Keydown (OnNode 3) "Escape")) (exec navigation.init page)
  = fresh_event (exec navigation.init page).
Proof.
  assert (Htg : OnNode 3 ≠ OnWindow) by discriminate.
  destruct (escape_closes_and_refocuses page 1 2 opening (OnNode 3)
              page_is_fresh eq_refl eq_refl Htg) as [H _].
  destruct (H eq_refl) as (H1 & _ & _ & H4).
  destruct (escape_closes_and_refocuses page 1 2 [] (OnNode 3)
              page_is_fresh eq_refl eq_refl Htg) as [_ H'].
  destruct (H' eq_refl) as (H5 & _).
  split; [exact H1|]. split; [exact H4 | exact H5].
Defined.

(** C9.  A forward arrow key on the last link of the container runs that
    link's listener, registered with the index of the last link, and no
    other: the default is prevented and focus is called on the first link.
    A backward arrow key on the first link calls focus on the last.  No key
    but Escape, on whatever target, changes an element or isOpen, so the
    traversal leaves isOpen and its mirrors as they are.  The document
    lists each element once, and no link is an ancestor of the link that
    has the key. *)
Theorem arrow_keys_wrap_around (w0 : World) (t n first lst : node)
    (inputs : list Input) (key : string) :
  fresh_page w0 →
  found w0 CONFIG.selectors.toggle = Some t →
  found w0 CONFIG.selectors.nav = Some n →
  NoDup (document w0) →
  head (nav_links w0 n) = Some first → last (nav_links w0 n) = Some lst →
  let w := fold_left react inputs (exec navigation.init w0) in
  (key = "ArrowDown" ∨ key = "ArrowRight" →
   apart w0 (nav_links w0 n) lst = true →
   let w' := exec (dispatchEvent (mkEvent Keydown (OnNode lst) key)) w in
   w' = exec (focus first) (set_defaultPrevented true (fresh_event w)) ∧
   activeElement w' = (if can_focus w first then Some first else activeElement w)) ∧
  (key = "ArrowUp" ∨ key = "ArrowLeft" →
   apart w0 (nav_links w0 n) first = true →
   let w' := exec (dispatchEvent (mkEvent Keydown (OnNode first) key)) w in
   w' = exec (focus lst) (set_defaultPrevented true (fresh_event w)) ∧
   activeElement w' = (if can_focus w lst then Some lst else activeElement w)) ∧
  (key ≠ "Escape" → ∀ target,
   let w' := exec (dispatchEvent (mkEvent Keydown target key)) w in
   elems w' = elems w ∧ menu_state w' = menu_state w).
Proof.
  intros Hf Ht Hn Hnd Hfirst Hlast w.
  destruct (run_settled w0 t n inputs Hf Ht Hn) as [Hw Htree]. fold w in Hw, Htree.
  pose proof (nav_links_NoDup w0 n Hnd) as Hnd'.
  set (links := nav_links w0 n) in *.
  destruct (on_link_keydown_wraps links first lst (mkEvent Keydown (OnNode lst) key)
              (fresh_event w) Hfirst Hlast) as (Hfwd & _ & _).
  destruct (on_link_keydown_wraps links first lst (mkEvent Keydown (OnNode first) key)
              (fresh_event w) Hfirst Hlast) as (_ & Hbwd & _).
  split; [|split].
  - intros Hk Hap w'.
    assert (E : w' = exec (focus first) (set_defaultPrevented true (fresh_event w))).
    { unfold w'.
      rewrite (key_on_link t n links lst (length links - 1) _ w Hw Hnd');
        [unfold exec at 1; by rewrite (Hfwd Hk) | | | done | done |].
      - rewrite <- Hlast, last_lookup. by rewrite Nat.sub_1_r.
      - by rewrite (apart_same_tree w0 w).
      - cbn. destruct Hk as [-> | ->]; discriminate. }
    split; [exact E|]. clearbody w'. subst w'.
    etransitivity; [apply focus_active | done].
  - intros Hk Hap w'.
    assert (E : w' = exec (focus lst) (set_defaultPrevented true (fresh_event w))).
    { unfold w'.
      rewrite (key_on_link t n links first 0 _ w Hw Hnd');
        [unfold exec at 1; by rewrite (Hbwd Hk) | | | done | done |].
      - by rewrite <- Hfirst, head_lookup.
      - by rewrite (apart_same_tree w0 w).
      - cbn. destruct Hk as [-> | ->]; discriminate. }
    split; [exact E|]. clearbody w'. subst w'.
    etransitivity; [apply focus_active | done].
  - intros Hk target w'.
    pose proof (key_keeps_menu t n links (mkEvent Keydown target key) w Hw eq_refl Hk) as Hs.
    fold w' in Hs. split; [apply Hs | by apply menu_state_same_menu].
Qed.

Lemma arrow_keys_wrap_around_witness :
  activeElement (exec (dispatchEvent (mkEvent Keydown (OnNode 5) "ArrowDown"))
                   (fold_left react opening (exec navigation.init page))) = Some 3 ∧
  activeElement (exec (dispatchEvent (mkEvent Keydown (OnNode 3) "ArrowUp"))
                   (fold_left react opening (exec navigation.init page))) = Some 5 ∧
  menu_state (exec (dispatchEvent (mkEvent Keydown (OnNode 5) "ArrowDown"))
                (fold_left react opening (exec navigation.init page)))
  = menu_state (fold_left react opening (exec navigation.init page)).
Proof.
  assert (Hnd : NoDup (document page)).
  { apply NoDup_ListNoDup. vm_compute. repeat constructor; cbn; lia. }
  destruct (arrow_keys_wrap_around page 1 2 3 5 opening "ArrowDown"
              page_is_fresh eq_refl eq_refl Hnd eq_refl eq_refl) as (H1 & _ & H3).
  destruct (arrow_keys_wrap_around page 1 2 3 5 opening "ArrowUp"
              page_is_fresh eq_refl eq_refl Hnd eq_refl eq_refl) as (_ & H2 & _).
  assert (Hk : "ArrowDown" ≠ "Escape") by discriminate.
  split; [exact (proj2 (H1 (or_introl eq_refl) eq_refl))|].
  split; [exact (proj2 (H2 (or_introl eq_refl) eq_refl))|].
  exact (proj2 (H3 Hk (OnNode 5))).
Defined.

(** * The setup never changes, and the toggle's click *)

(** Once init has run on a fresh page, nothing the page goes through adds,
    removes or replaces a listener, changes a handle, or moves an element:
    the handles hold the toggle and the container that init found, the
    listeners are those init registered, and the document, the body, the
    parent of every element and so every contains test are those of the
    page init was given. *)
Theorem setup_is_stable (w0 : World) (t n : node) (inputs : list Input) :
  fresh_page w0 →
  found w0 CONFIG.selectors.toggle = Some t →
  found w0 CONFIG.selectors.nav = Some n →
  let w := fold_left react inputs (exec navigation.init w0) in
  toggle w = Some t ∧ nav w = Some n ∧
  listeners w = wiring t (nav_links w0 n) ∧
  document w = document w0 ∧ body w = body w0 ∧
  (∀ y, parentNode (element w y) = parentNode (element w0 y)) ∧
  (∀ x target, inside w x target = inside w0 x target).
Proof.
  intros Hf Ht Hn w.
  destruct (run_settled w0 t n inputs Hf Ht Hn) as [Hw Htree]. fold w in Hw, Htree.
  destruct Hw as (H1 & H2 & H3 & _).
  pose proof Htree as (H4 & H5 & _ & H6 & _).
  repeat split; try done.
  intros x target. by apply inside_same_tree.
Qed.

Lemma setup_is_stable_witness :
  listeners (fold_left react opening_wide (exec navigation.init page))
  = listeners (exec navigation.init page) ∧
  document (fold_left react opening_wide (exec navigation.init page)) = document page.
Proof.
  destruct (setup_is_stable page 1 2 opening_wide page_is_fresh eq_refl eq_refl)
    as (_ & _ & H3 & H4 & _).
  split; [|exact H4].
  etransitivity; [exact H3|]. reflexivity.
Defined.

Lemma listeners_for_toggle_click t links :
  t ∉ links →
  listeners_for (OnNode t) Click (wiring t links)
  = [mkListener (OnNode t) Click ToggleClick].
Proof.
  intros Ht. unfold listeners_for, wiring. rewrite !List.filter_app.
  rewrite (filter_none _ (_ <$> links)), (filter_none _ (imap _ links)).
  - cbn [List.filter l_target l_type].
    rewrite (bool_decide_eq_true_2 (OnNode t = OnNode t)) by done. by cbn.
  - intros l Hl. apply list_elem_of_In, elem_of_lookup_imap in Hl as (i & x & -> & _).
    cbn. apply andb_false_r.
  - intros l Hl. apply list_elem_of_In, list_elem_of_fmap in Hl as (x & -> & Hx).
    cbn. rewrite bool_decide_eq_false_2; [done|]. by intros [= ->].
Qed.

Lemma toggleMenu_flag t n links w :
  wired t n links w →
  propagationStopped (exec navigation.toggleMenu w) = propagationStopped w.
Proof.
  intros Hw. pose proof Hw as (Ht & Hn & _). unfold exec. rewrite toggleMenu_run.
  assert (Hb : ∀ b : bool,
    propagationStopped ((if b then navigation.closeMenu w else navigation.openMenu w).2)
    = propagationStopped w).
  { intros [].
    - by rewrite (closeMenu_run w t n Ht Hn).
    - rewrite (openMenu_run w t n Ht Hn). cbn [snd]. unfold schedule_focus.
      by destruct (first_link _ _). }
  apply Hb.
Qed.

(** A click on the toggle runs the toggle's listener and stops there: the
    menu changes state, with all four mirrors, and the event never reaches
    the listener of the document.  The toggle is none of the links. *)
Theorem toggle_click_toggles (w0 : World) (t n : node) (inputs : list Input)
    (key : string) :
  fresh_page w0 →
  found w0 CONFIG.selectors.toggle = Some t →
  found w0 CONFIG.selectors.nav = Some n →
  t ∉ nav_links w0 n →
  let w := fold_left react inputs (exec navigation.init w0) in
  let w' := exec (dispatchEvent (mkEvent Click (OnNode t) key)) w in
  w' = exec navigation.toggleMenu (set_propagationStopped true (fresh_event w)) ∧
  isOpen w' = negb (isOpen w) ∧ mirrors_agree w'.
Proof.
  intros Hf Ht Hn Htl w w'.
  destruct (run_settled w0 t n inputs Hf Ht Hn) as [Hw _]. fold w in Hw.
  set (w1 := set_propagationStopped true (fresh_event w)).
  assert (Hw1 : wired t n (nav_links w0 n) w1).
  { eapply wired_calm; [exact Hw | by apply calm_fields]. }
  assert (E : w' = exec navigation.toggleMenu w1).
  { unfold w'. rewrite dispatchEvent_run.
    assert (Hp : event_path w (mkEvent Click (OnNode t) key)
            = OnNode t :: (OnNode <$> tail (path_of w t)) ++ [OnDocument; OnWindow]).
    { unfold event_path. cbn [ev_target ev_type].
      destruct (path_of_head w t) as (rest & Hp & ->). by rewrite Hp at 1. }
    rewrite Hp. rewrite propagate_exec_cons.
    pose proof (wired_fresh_event _ _ _ _ Hw) as (_ & _ & HLf & _).
    rewrite HLf. cbn [ev_type].
    rewrite (listeners_for_toggle_click t _ Htl).
    rewrite invoke_exec_cons. cbn [l_handler].
    change (exec (invoke [] (mkEvent Click (OnNode t) key))
              (exec (handle ToggleClick (mkEvent Click (OnNode t) key)) (fresh_event w)))
      with (exec navigation.toggleMenu w1).
    assert (Hflag : propagationStopped (exec navigation.toggleMenu w1) = true)
      by (by rewrite (toggleMenu_flag t n (nav_links w0 n))).
    assert (Hb : ∀ (b : bool) (X : World), b = true →
      (if b then exec navigation.toggleMenu w1 else X) = exec navigation.toggleMenu w1)
      by (by intros ? ? ->).
    apply Hb. exact Hflag. }
  split; [exact E|]. clearbody w'. subst w'.
  pose proof Hw1 as (Ht1 & Hn1 & _).
  destruct (toggleMenu_synced w1 t n Ht1 Hn1) as [Hs Ho].
  split; [exact Ho | by apply synced_mirrors_agree].
Qed.

Lemma toggle_click_toggles_witness :
  isOpen (exec (dispatchEvent (mkEvent Click (OnNode 1) EmptyString))
            (exec navigation.init page)) = true ∧
  isOpen (exec (dispatchEvent (mkEvent Click (OnNode 1) EmptyString))
            (fold_left react opening (exec navigation.init page))) = false.
Proof.
  assert (Htl : 1 ∉ nav_links page 2).
  { intros H. apply list_elem_of_In in H. vm_compute in H. intuition discriminate. }
  destruct (toggle_click_toggles page 1 2 [] EmptyString
              page_is_fresh eq_refl eq_refl Htl) as (_ & H1 & _).
  destruct (toggle_click_toggles page 1 2 opening EmptyString
              page_is_fresh eq_refl eq_refl Htl) as (_ & H2 & _).
  split; [exact H1 | exact H2].
Defined.
